(** * Buffer pool manager and LRU replacer (Lab1)

    A shallow embedding of [src/Lab1/lru_replacer.cpp] and
    [src/Lab1/buffer_pool_manager.cpp].  Every member function becomes a
    function on an explicit state record; the objects that the C++ code
    mutates in place (the frame array, the page table, the free list, the
    replacer and the disk manager) are fields of that record.  A [Page*]
    into [pages_] is represented by the index of the frame it points to,
    so the aliasing between [page] and [pages_[new_frame_id]] in
    [update_page] is kept. *)

From Stdlib Require Import Init.Byte.
From stdpp Require Import base numbers option list functions countable gmap.

(** ** Identifiers and pages *)

(** [frame_id_t] and [page_id_t] are C++ [int]s. *)
Abbreviation frame_id_t := Z.
Abbreviation page_id_t := Z.

(** Modelled from the spec: the sentinels for no page and no frame are
    declared in a header that is not among the sources (spec 3 and 6: a
    reserved sentinel page number denotes no page). *)
Definition INVALID_PAGE_ID : page_id_t := (-1)%Z.
Definition INVALID_FRAME_ID : frame_id_t := (-1)%Z.

(** Modelled from the spec: the fixed page size in bytes (spec 6 and 8). *)
Definition PAGE_SIZE : nat := 4096.

Record PageId := mkPageId { fd : Z; page_no : page_id_t }.

#[global] Instance PageId_eq_dec : EqDecision PageId.
Proof. solve_decision. Defined.

#[global] Instance PageId_countable : Countable PageId.
Proof.
  apply (inj_countable' (λ p, (fd p, page_no p)) (λ q, mkPageId q.1 q.2)).
  by intros [].
Defined.

(** Modelled from the spec: class [Page] is declared in a header that is
    not among the sources.  Spec 3 gives a frame an identity, a fixed-size
    byte block, a dirty flag and a pin count that is an unsigned integer;
    the field names are the ones the sources use. *)
Record Page := mkPage {
  id_ : PageId;
  data_ : list byte;
  is_dirty_ : bool;
  pin_count_ : N
}.

Definition set_id (p : Page) (i : PageId) : Page :=
  mkPage i (data_ p) (is_dirty_ p) (pin_count_ p).
Definition set_data (p : Page) (d : list byte) : Page :=
  mkPage (id_ p) d (is_dirty_ p) (pin_count_ p).
Definition set_dirty (p : Page) (b : bool) : Page :=
  mkPage (id_ p) (data_ p) b (pin_count_ p).
Definition set_pin_count (p : Page) (n : N) : Page :=
  mkPage (id_ p) (data_ p) (is_dirty_ p) n.

(** [Page::reset_memory]: the buffer becomes [PAGE_SIZE] zero bytes. *)
Definition reset_memory (p : Page) : Page :=
  set_data p (replicate PAGE_SIZE x00).

(** Modelled from the spec: the constructor of [Page] is not among the
    sources.  A frame at pool initialization has the sentinel identity, a
    zeroed buffer, a clear dirty flag and pin count 0 (spec 3). *)
Definition fresh_page : Page :=
  mkPage (mkPageId (-1) INVALID_PAGE_ID) (replicate PAGE_SIZE x00) false 0.

(** ** Disk manager *)

Module DiskManager.

Inductive event :=
| EvWrite (id : PageId) (buf : list byte)
| EvRead (id : PageId)
| EvAlloc (file : Z) (no : page_id_t).

(** Modelled from the spec: the disk manager is an external collaborator
    whose code is not among the sources (spec 6).  [store] is what is
    persisted per page slot, [fd2pageno_] the next page number of every
    file, [trace] the calls made so far, most recent first. *)
Record t := mk {
  store : gmap PageId (list byte);
  fd2pageno_ : gmap Z page_id_t;
  trace : list event
}.

(** Modelled from the spec: [writePage] persists the block to the given
    page slot. *)
Definition write_page (d : t) (file : Z) (no : page_id_t) (buf : list byte) : t :=
  mk (<[mkPageId file no := buf]> (store d)) (fd2pageno_ d)
     (EvWrite (mkPageId file no) buf :: trace d).

(** Modelled from the spec: [readPage] returns the block persisted at
    the given page slot; a slot never written reads as zeros (the fatal
    failure on an invalid slot is outside this model). *)
Definition read_page (d : t) (file : Z) (no : page_id_t) : list byte * t :=
  (default (replicate PAGE_SIZE x00) (store d !! mkPageId file no),
   mk (store d) (fd2pageno_ d) (EvRead (mkPageId file no) :: trace d)).

(** Modelled from the spec: [allocatePage] reserves and returns a fresh
    page number within the given file. *)
Definition allocate_page (d : t) (file : Z) : page_id_t * t :=
  let n := default 0%Z (fd2pageno_ d !! file) in
  (n, mk (store d) (<[file := (n + 1)%Z]> (fd2pageno_ d))
         (EvAlloc file n :: trace d)).

Definition empty : t := mk ∅ ∅ [].

End DiskManager.

(** ** LRU replacer ([lru_replacer.cpp]) *)

(** [std::list::erase] through the iterator that [LRUhash_] keeps for a
    frame: the node that holds that frame id is unlinked.  [unpin] only
    links a frame that has no entry in [LRUhash_], so there is at most one
    such node; on a list with several the first one is taken. *)
Fixpoint list_erase (f : frame_id_t) (l : list frame_id_t) : list frame_id_t :=
  match l with
  | [] => []
  | x :: l' => if decide (x = f) then l' else x :: list_erase f l'
  end.

Module LRUReplacer.

(** [LRUlist_] has its front at the head of the list.  [LRUhash_] maps a
    frame id to its node in [LRUlist_]; the model keeps its key set. *)
Record t := mk {
  max_size_ : nat;
  LRUlist_ : list frame_id_t;
  LRUhash_ : gset Z
}.

(** [LRUReplacer::LRUReplacer(size_t num_pages)] *)
Definition new (num_pages : nat) : t := mk num_pages [] ∅.

(** [bool victim(frame_id_t* frame_id)]: the result is the returned
    flag, the value stored through [frame_id] and the new replacer. *)
Definition victim (r : t) : bool * frame_id_t * t :=
  match last (LRUlist_ r) with
  | None => (false, INVALID_FRAME_ID, r)
  | Some f =>
      (true, f, mk (max_size_ r) (removelast (LRUlist_ r)) (LRUhash_ r ∖ {[f]}))
  end.

Definition pin (r : t) (frame_id : frame_id_t) : t :=
  if decide (frame_id ∈ LRUhash_ r)
  then mk (max_size_ r) (list_erase frame_id (LRUlist_ r)) (LRUhash_ r ∖ {[frame_id]})
  else r.

Definition unpin (r : t) (frame_id : frame_id_t) : t :=
  if decide (frame_id ∉ LRUhash_ r)
  then mk (max_size_ r) (frame_id :: LRUlist_ r) ({[frame_id]} ∪ LRUhash_ r)
  else r.

Definition Size (r : t) : nat := length (LRUlist_ r).

End LRUReplacer.

(** ** Buffer pool manager ([buffer_pool_manager.cpp]) *)

Module BufferPoolManager.

(** [pages_] is the frame array; a frame id indexes it. *)
Record t := mk {
  pool_size_ : nat;
  pages_ : frame_id_t → Page;
  page_table_ : gmap PageId Z;
  free_list_ : list frame_id_t;
  disk_manager_ : DiskManager.t;
  replacer_ : LRUReplacer.t
}.

Definition with_pages (s : t) (ps : frame_id_t → Page) : t :=
  mk (pool_size_ s) ps (page_table_ s) (free_list_ s) (disk_manager_ s) (replacer_ s).
Definition with_page_table (s : t) (pt : gmap PageId Z) : t :=
  mk (pool_size_ s) (pages_ s) pt (free_list_ s) (disk_manager_ s) (replacer_ s).
Definition with_free_list (s : t) (fl : list frame_id_t) : t :=
  mk (pool_size_ s) (pages_ s) (page_table_ s) fl (disk_manager_ s) (replacer_ s).
Definition with_disk (s : t) (d : DiskManager.t) : t :=
  mk (pool_size_ s) (pages_ s) (page_table_ s) (free_list_ s) d (replacer_ s).
Definition with_replacer (s : t) (r : LRUReplacer.t) : t :=
  mk (pool_size_ s) (pages_ s) (page_table_ s) (free_list_ s) (disk_manager_ s) r.

(** An assignment through a [Page*] or through [pages_[f]]. *)
Definition upd_page (s : t) (f : frame_id_t) (g : Page → Page) : t :=
  with_pages s (<[f := g (pages_ s f)]> (pages_ s)).

(** Modelled from the spec: the constructor is in a header that is not
    among the sources.  Every frame starts fresh and the free list holds
    every frame index in order (spec 3). *)
Definition new (pool_size : nat) (disk : DiskManager.t) : t :=
  mk pool_size (λ _, fresh_page) ∅ (Z.of_nat <$> seq 0 pool_size) disk
     (LRUReplacer.new pool_size).

(** [bool find_victim_page(frame_id_t* frame_id)] *)
Definition find_victim_page (s : t) : bool * frame_id_t * t :=
  match free_list_ s with
  | f :: rest => (true, f, with_free_list s rest)
  | [] =>
      let '(ok, f, r) := LRUReplacer.victim (replacer_ s) in
      (ok, f, with_replacer s r)
  end.

(** [void update_page(Page *page, PageId new_page_id, frame_id_t new_frame_id)] *)
Definition update_page (s : t) (page : frame_id_t) (new_page_id : PageId)
    (new_frame_id : frame_id_t) : t :=
  let s1 :=
    if is_dirty_ (pages_ s page)
    then
      let p := pages_ s page in
      let d := DiskManager.write_page (disk_manager_ s)
                 (fd (id_ p)) (page_no (id_ p)) (data_ p) in
      upd_page (with_disk s d) page (λ p, set_dirty p false)
    else s in
  let s2 := upd_page s1 page (λ p, set_pin_count p 0) in
  let s3 := with_page_table s2 (delete (id_ (pages_ s2 page)) (page_table_ s2)) in
  let s4 := with_page_table s3 (<[new_page_id := new_frame_id]> (page_table_ s3)) in
  let s5 := upd_page s4 page reset_memory in
  let s6 := upd_page s5 new_frame_id (λ p, set_id p new_page_id) in
  let s7 := upd_page s6 new_frame_id (λ p, set_dirty p false) in
  upd_page s7 new_frame_id (λ p, set_pin_count p 0).

(** [Page* fetch_page(PageId page_id)]: [None] is [nullptr]. *)
Definition fetch_page (s : t) (page_id : PageId) : option frame_id_t * t :=
  match page_table_ s !! page_id with
  | Some frame_id =>
      let s1 := with_replacer s (LRUReplacer.pin (replacer_ s) frame_id) in
      let s2 := upd_page s1 frame_id (λ p, set_pin_count p (N.succ (pin_count_ p))) in
      (Some frame_id, s2)
  | None =>
      let '(ok, frame_id, s1) := find_victim_page s in
      if negb ok then (None, s1)
      else
        let victim_page := frame_id in
        let s2 := update_page s1 victim_page page_id frame_id in
        let '(buf, d) := DiskManager.read_page (disk_manager_ s2)
                           (fd page_id) (page_no page_id) in
        let s3 := upd_page (with_disk s2 d) victim_page (λ p, set_data p buf) in
        let s4 := with_replacer s3 (LRUReplacer.pin (replacer_ s3) frame_id) in
        let s5 := upd_page s4 victim_page
                    (λ p, set_pin_count p (N.succ (pin_count_ p))) in
        (Some victim_page, s5)
  end.

(** [bool unpin_page(PageId page_id, bool is_dirty)] *)
Definition unpin_page (s : t) (page_id : PageId) (is_dirty : bool) : bool * t :=
  match page_table_ s !! page_id with
  | None => (false, s)
  | Some frame_id =>
      if (pin_count_ (pages_ s frame_id) <=? 0)%N then (false, s)
      else
        let s1 := upd_page s frame_id (λ p, set_pin_count p (N.pred (pin_count_ p))) in
        let s2 :=
          if (pin_count_ (pages_ s1 frame_id) =? 0)%N
          then with_replacer s1 (LRUReplacer.unpin (replacer_ s1) frame_id)
          else s1 in
        let s3 := if is_dirty then upd_page s2 frame_id (λ p, set_dirty p true) else s2 in
        (true, s3)
  end.

(** [bool flush_page(PageId page_id)] *)
Definition flush_page (s : t) (page_id : PageId) : bool * t :=
  match page_table_ s !! page_id with
  | None => (false, s)
  | Some frame_id =>
      let d := DiskManager.write_page (disk_manager_ s)
                 (fd page_id) (page_no page_id) (data_ (pages_ s frame_id)) in
      (true, upd_page (with_disk s d) frame_id (λ p, set_dirty p false))
  end.

(** [Page* new_page(PageId* page_id)]: the second component is the value
    of [*page_id] on return. *)
Definition new_page (s : t) (page_id : PageId) : option frame_id_t * PageId * t :=
  let '(ok, frame_id, s1) := find_victim_page s in
  if negb ok then (None, page_id, s1)
  else
    let new_page := frame_id in
    let '(new_page_no, d) := DiskManager.allocate_page (disk_manager_ s1) (fd page_id) in
    let page_id' := mkPageId (fd page_id) new_page_no in
    let s2 := update_page (with_disk s1 d) new_page page_id' frame_id in
    let s3 := with_replacer s2 (LRUReplacer.pin (replacer_ s2) frame_id) in
    let s4 := upd_page s3 new_page (λ p, set_pin_count p (N.succ (pin_count_ p))) in
    (Some new_page, page_id', s4).

(** [bool delete_page(PageId page_id)] *)
Definition delete_page (s : t) (page_id : PageId) : bool * t :=
  match page_table_ s !! page_id with
  | None => (true, s)
  | Some frame_id =>
      let page := frame_id in
      if negb (pin_count_ (pages_ s page) =? 0)%N then (false, s)
      else
        let p := pages_ s page in
        let d := DiskManager.write_page (disk_manager_ s)
                   (fd (id_ p)) (page_no (id_ p)) (data_ p) in
        let s1 := with_disk s d in
        let s2 := with_page_table s1 (delete page_id (page_table_ s1)) in
        let s3 := upd_page s2 page reset_memory in
        let s4 := upd_page s3 page (λ p, set_dirty p false) in
        let s5 := upd_page s4 page (λ p, set_pin_count p 0) in
        let s6 := upd_page s5 page
                    (λ p, set_id p (mkPageId (fd (id_ p)) INVALID_PAGE_ID)) in
        (true, with_free_list s6 (free_list_ s6 ++ [frame_id]))
  end.

(** One iteration of the loop of [flush_all_pages]. *)
Definition flush_frame (file : Z) (s : t) (i : nat) : t :=
  let page := Z.of_nat i in
  let p := pages_ s page in
  if bool_decide (fd (id_ p) = file) && negb (bool_decide (page_no (id_ p) = INVALID_PAGE_ID))
  then
    let d := DiskManager.write_page (disk_manager_ s) file (page_no (id_ p)) (data_ p) in
    upd_page (with_disk s d) page (λ p, set_dirty p false)
  else s.

(** [void flush_all_pages(int fd)] *)
Definition flush_all_pages (s : t) (file : Z) : t :=
  foldl (flush_frame file) s (seq 0 (pool_size_ s)).

End BufferPoolManager.

(** ** Sequences of calls *)

(** A run of [unpin] calls on the replacer, in the order of the list. *)
Definition unpin_all (r : LRUReplacer.t) (fs : list frame_id_t) : LRUReplacer.t :=
  foldl LRUReplacer.unpin r fs.

(** What a caller of the pool can do between two observations: one of the
    six protocol calls, or a store into the buffer of a frame through the
    [Page*] that [fetch_page] or [new_page] returned. *)
Inductive call :=
| CallFetch (page_id : PageId)
| CallNew (page_id : PageId)
| CallUnpin (page_id : PageId) (is_dirty : bool)
| CallFlush (page_id : PageId)
| CallDelete (page_id : PageId)
| CallFlushAll (file : Z)
| CallStore (f : frame_id_t) (buf : list byte).

Definition run_call (s : BufferPoolManager.t) (c : call) : BufferPoolManager.t :=
  match c with
  | CallFetch page_id => (BufferPoolManager.fetch_page s page_id).2
  | CallNew page_id => (BufferPoolManager.new_page s page_id).2
  | CallUnpin page_id is_dirty => (BufferPoolManager.unpin_page s page_id is_dirty).2
  | CallFlush page_id => (BufferPoolManager.flush_page s page_id).2
  | CallDelete page_id => (BufferPoolManager.delete_page s page_id).2
  | CallFlushAll file => BufferPoolManager.flush_all_pages s file
  | CallStore f buf => BufferPoolManager.upd_page s f (λ p, set_data p buf)
  end.

Definition run_calls (s : BufferPoolManager.t) (cs : list call) : BufferPoolManager.t :=
  foldl run_call s cs.

(** A run of up to [n] [victim] calls on the replacer: the frames handed
    out, in the order of the calls, and the replacer that is left.  The
    run stops at the first call that returns [false]. *)
Fixpoint victims (n : nat) (r : LRUReplacer.t) : list frame_id_t * LRUReplacer.t :=
  match n with
  | O => ([], r)
  | S n' =>
      let '(ok, f, r') := LRUReplacer.victim r in
      if ok then let '(fs, r'') := victims n' r' in (f :: fs, r'') else ([], r')
  end.

(** The test that the loop of [flush_all_pages] makes on a frame. *)
Definition flushable (file : Z) (p : Page) : bool :=
  bool_decide (fd (id_ p) = file) &&
  negb (bool_decide (page_no (id_ p) = INVALID_PAGE_ID)).

(** ** Invariants *)

(** The replacer's list and index describe the same frames, each once. *)
Definition lru_wf (r : LRUReplacer.t) : Prop :=
  NoDup (LRUReplacer.LRUlist_ r) ∧
  ∀ f, f ∈ LRUReplacer.LRUhash_ r ↔ f ∈ LRUReplacer.LRUlist_ r.

Definition frame_in_range (s : BufferPoolManager.t) (f : frame_id_t) : Prop :=
  (0 ≤ f < Z.of_nat (BufferPoolManager.pool_size_ s))%Z.

(** The three states of a frame (spec 3, invariant 1). *)
Definition frame_free (s : BufferPoolManager.t) (f : frame_id_t) : Prop :=
  f ∈ BufferPoolManager.free_list_ s.
Definition frame_eligible (s : BufferPoolManager.t) (f : frame_id_t) : Prop :=
  f ∈ LRUReplacer.LRUlist_ (BufferPoolManager.replacer_ s).
Definition frame_pinned_or_unknown (s : BufferPoolManager.t) (f : frame_id_t) : Prop :=
  (f ∉ BufferPoolManager.free_list_ s) ∧
  (f ∉ LRUReplacer.LRUlist_ (BufferPoolManager.replacer_ s)).

Definition exactly_one (P Q R : Prop) : Prop :=
  (P ∧ ¬ Q ∧ ¬ R) ∨ (¬ P ∧ Q ∧ ¬ R) ∨ (¬ P ∧ ¬ Q ∧ R).

Definition partitioned (s : BufferPoolManager.t) : Prop :=
  ∀ f, frame_in_range s f →
       exactly_one (frame_free s f) (frame_eligible s f) (frame_pinned_or_unknown s f).

(** The same, as a check that runs over the frames of the pool. *)
Definition partitioned_check (s : BufferPoolManager.t) : bool :=
  forallb
    (λ i, negb (bool_decide (Z.of_nat i ∈ BufferPoolManager.free_list_ s) &&
                bool_decide (Z.of_nat i ∈ LRUReplacer.LRUlist_
                                             (BufferPoolManager.replacer_ s))))
    (seq 0 (BufferPoolManager.pool_size_ s)).

(** What every state that the protocol can reach satisfies: the replacer
    is coherent, the free list has no repetition, a page-table entry
    points at an in-range frame that carries that identity and is not in
    the free list, and a frame in the free list or in the replacer's list
    is in range and has pin count 0. *)
Record pool_inv (s : BufferPoolManager.t) : Prop := {
  inv_lru : lru_wf (BufferPoolManager.replacer_ s);
  inv_free_nodup : NoDup (BufferPoolManager.free_list_ s);
  inv_table : ∀ id f, BufferPoolManager.page_table_ s !! id = Some f →
      id_ (BufferPoolManager.pages_ s f) = id ∧
      (f ∉ BufferPoolManager.free_list_ s) ∧ frame_in_range s f;
  inv_free : ∀ f, f ∈ BufferPoolManager.free_list_ s →
      pin_count_ (BufferPoolManager.pages_ s f) = 0%N ∧ frame_in_range s f;
  inv_eligible : ∀ f, f ∈ LRUReplacer.LRUlist_ (BufferPoolManager.replacer_ s) →
      pin_count_ (BufferPoolManager.pages_ s f) = 0%N ∧ frame_in_range s f
}.

(** * Properties *)

Opaque PAGE_SIZE.

(** ** Bookkeeping lemmas *)

Lemma PageId_eta (i : PageId) : mkPageId (fd i) (page_no i) = i.
Proof. by destruct i. Qed.

Lemma with_replacer_id (s : BufferPoolManager.t) :
  BufferPoolManager.with_replacer s (BufferPoolManager.replacer_ s) = s.
Proof. by destruct s. Qed.

(** Rewrites every frame read in the goal down to the frames of the
    starting state. *)
Ltac frames :=
  repeat first
    [ rewrite fn_lookup_insert
    | rewrite fn_lookup_insert_ne by (done || congruence)
    | progress simpl ].

(** ** unpin_page *)

(** The successful branch of [unpin_page], field by field. *)
Lemma unpin_page_success (s : BufferPoolManager.t) (page_id : PageId) (is_dirty : bool) :
  ∀ f, BufferPoolManager.page_table_ s !! page_id = Some f →
     pin_count_ (BufferPoolManager.pages_ s f) ≠ 0%N →
     ∃ s', BufferPoolManager.unpin_page s page_id is_dirty = (true, s') ∧
       (pin_count_ (BufferPoolManager.pages_ s' f) + 1
        = pin_count_ (BufferPoolManager.pages_ s f))%N ∧
       BufferPoolManager.replacer_ s'
       = (if decide (pin_count_ (BufferPoolManager.pages_ s' f) = 0%N)
          then LRUReplacer.unpin (BufferPoolManager.replacer_ s) f
          else BufferPoolManager.replacer_ s) ∧
       is_dirty_ (BufferPoolManager.pages_ s' f)
       = (if is_dirty then true else is_dirty_ (BufferPoolManager.pages_ s f)) ∧
       id_ (BufferPoolManager.pages_ s' f) = id_ (BufferPoolManager.pages_ s f) ∧
       data_ (BufferPoolManager.pages_ s' f) = data_ (BufferPoolManager.pages_ s f) ∧
       (∀ g, g ≠ f → BufferPoolManager.pages_ s' g = BufferPoolManager.pages_ s g) ∧
       BufferPoolManager.page_table_ s' = BufferPoolManager.page_table_ s ∧
       BufferPoolManager.free_list_ s' = BufferPoolManager.free_list_ s ∧
       BufferPoolManager.disk_manager_ s' = BufferPoolManager.disk_manager_ s ∧
       BufferPoolManager.pool_size_ s' = BufferPoolManager.pool_size_ s.
Proof.
  intros f Hf Hnz. unfold BufferPoolManager.unpin_page. rewrite Hf.
  destruct (N.leb_spec (pin_count_ (BufferPoolManager.pages_ s f)) 0) as [Hle|Hlt];
    [lia|].
  eexists; split; [reflexivity|].
  assert (Hpred : (N.pred (pin_count_ (BufferPoolManager.pages_ s f)) + 1
                   = pin_count_ (BufferPoolManager.pages_ s f))%N) by lia.
  frames.
  destruct (N.eqb_spec (N.pred (pin_count_ (BufferPoolManager.pages_ s f))) 0)
    as [Hp|Hp]; destruct is_dirty; frames; case_decide; try done;
    (repeat split; try done; try (intros g Hg; by frames)).
Qed.

(** Claim C3.  [unpin_page] returns [false] and leaves the state as it is
    when the page is not resident or its frame's pin count is already 0.
    Otherwise it returns [true], the pin count goes down by one, the
    replacer's [unpin] is called on the frame exactly when the new count
    is 0, the dirty flag is set when [is_dirty] is [true] and kept when it
    is [false]; identity, buffer, the other frames, the page table, the
    free list and the disk are as before. *)
Theorem unpin_page_spec (s : BufferPoolManager.t) (page_id : PageId) (is_dirty : bool) :
  (BufferPoolManager.page_table_ s !! page_id = None →
     BufferPoolManager.unpin_page s page_id is_dirty = (false, s)) ∧
  (∀ f, BufferPoolManager.page_table_ s !! page_id = Some f →
     pin_count_ (BufferPoolManager.pages_ s f) = 0%N →
     BufferPoolManager.unpin_page s page_id is_dirty = (false, s)) ∧
  (∀ f, BufferPoolManager.page_table_ s !! page_id = Some f →
     pin_count_ (BufferPoolManager.pages_ s f) ≠ 0%N →
     ∃ s', BufferPoolManager.unpin_page s page_id is_dirty = (true, s') ∧
       (pin_count_ (BufferPoolManager.pages_ s' f) + 1
        = pin_count_ (BufferPoolManager.pages_ s f))%N ∧
       BufferPoolManager.replacer_ s'
       = (if decide (pin_count_ (BufferPoolManager.pages_ s' f) = 0%N)
          then LRUReplacer.unpin (BufferPoolManager.replacer_ s) f
          else BufferPoolManager.replacer_ s) ∧
       is_dirty_ (BufferPoolManager.pages_ s' f)
       = (if is_dirty then true else is_dirty_ (BufferPoolManager.pages_ s f)) ∧
       id_ (BufferPoolManager.pages_ s' f) = id_ (BufferPoolManager.pages_ s f) ∧
       data_ (BufferPoolManager.pages_ s' f) = data_ (BufferPoolManager.pages_ s f) ∧
       (∀ g, g ≠ f → BufferPoolManager.pages_ s' g = BufferPoolManager.pages_ s g) ∧
       BufferPoolManager.page_table_ s' = BufferPoolManager.page_table_ s ∧
       BufferPoolManager.free_list_ s' = BufferPoolManager.free_list_ s ∧
       BufferPoolManager.disk_manager_ s' = BufferPoolManager.disk_manager_ s ∧
       BufferPoolManager.pool_size_ s' = BufferPoolManager.pool_size_ s).
Proof.
  split; [|split].
  - unfold BufferPoolManager.unpin_page. by intros ->.
  - intros f Hf Hz. unfold BufferPoolManager.unpin_page. by rewrite Hf, Hz.
  - apply unpin_page_success.
Qed.

Lemma unpin_page_spec_witness :
  let s := (BufferPoolManager.fetch_page
              (BufferPoolManager.new 2 DiskManager.empty) (mkPageId 1 0)).2 in
  BufferPoolManager.unpin_page s (mkPageId 1 7) true = (false, s) ∧
  ∃ s', BufferPoolManager.unpin_page s (mkPageId 1 0) true = (true, s') ∧
        pin_count_ (BufferPoolManager.pages_ s' 0%Z) = 0%N ∧
        is_dirty_ (BufferPoolManager.pages_ s' 0%Z) = true ∧
        LRUReplacer.LRUlist_ (BufferPoolManager.replacer_ s') = [0%Z].
Proof.
  intros s.
  destruct (unpin_page_spec s (mkPageId 1 7) true) as (Hnone & _ & _).
  destruct (unpin_page_spec s (mkPageId 1 0) true) as (_ & _ & Hsome).
  split; [apply Hnone; reflexivity|].
  destruct (Hsome 0%Z) as (s' & Hrun & Hpin & Hrep & Hd & _);
    [reflexivity | vm_compute; discriminate |].
  exists s'. split; [exact Hrun|].
  assert (Hz : pin_count_ (BufferPoolManager.pages_ s' 0%Z) = 0%N).
  { change (pin_count_ (BufferPoolManager.pages_ s 0%Z)) with 1%N in Hpin. lia. }
  split; [exact Hz|]. split; [exact Hd|].
  rewrite Hrep, Hz. reflexivity.
Defined.

(** ** flush_page *)

(** Claim C6.  For a resident page [flush_page] returns [true] after one
    [write_page] of the frame's buffer at that page's slot, whatever the
    dirty flag and the pin count are, and clears the dirty flag.  The pin
    count, identity and buffer of the frame, the other frames, the page
    table, the free list and the replacer are as before.  For a page that
    is not resident it returns [false] and the state is as it was. *)
Theorem flush_page_spec (s : BufferPoolManager.t) (page_id : PageId) :
  (BufferPoolManager.page_table_ s !! page_id = None →
     BufferPoolManager.flush_page s page_id = (false, s)) ∧
  (∀ f, BufferPoolManager.page_table_ s !! page_id = Some f →
     ∃ s', BufferPoolManager.flush_page s page_id = (true, s') ∧
       DiskManager.trace (BufferPoolManager.disk_manager_ s')
       = DiskManager.EvWrite page_id (data_ (BufferPoolManager.pages_ s f))
           :: DiskManager.trace (BufferPoolManager.disk_manager_ s) ∧
       DiskManager.store (BufferPoolManager.disk_manager_ s') !! page_id
       = Some (data_ (BufferPoolManager.pages_ s f)) ∧
       (∀ i, i ≠ page_id →
          DiskManager.store (BufferPoolManager.disk_manager_ s') !! i
          = DiskManager.store (BufferPoolManager.disk_manager_ s) !! i) ∧
       DiskManager.fd2pageno_ (BufferPoolManager.disk_manager_ s')
       = DiskManager.fd2pageno_ (BufferPoolManager.disk_manager_ s) ∧
       is_dirty_ (BufferPoolManager.pages_ s' f) = false ∧
       pin_count_ (BufferPoolManager.pages_ s' f)
       = pin_count_ (BufferPoolManager.pages_ s f) ∧
       id_ (BufferPoolManager.pages_ s' f) = id_ (BufferPoolManager.pages_ s f) ∧
       data_ (BufferPoolManager.pages_ s' f) = data_ (BufferPoolManager.pages_ s f) ∧
       (∀ g, g ≠ f → BufferPoolManager.pages_ s' g = BufferPoolManager.pages_ s g) ∧
       BufferPoolManager.page_table_ s' = BufferPoolManager.page_table_ s ∧
       BufferPoolManager.free_list_ s' = BufferPoolManager.free_list_ s ∧
       BufferPoolManager.replacer_ s' = BufferPoolManager.replacer_ s ∧
       BufferPoolManager.pool_size_ s' = BufferPoolManager.pool_size_ s).
Proof.
  unfold BufferPoolManager.flush_page. split.
  - by intros ->.
  - intros f ->. eexists; split; [reflexivity|].
    frames. rewrite PageId_eta.
    repeat split; try done.
    + apply lookup_insert_eq.
    + intros i Hi. by apply lookup_insert_ne.
    + intros g Hg. by frames.
Qed.

(** A pinned, clean page is written all the same. *)
Lemma flush_page_spec_witness :
  let s := (BufferPoolManager.fetch_page
              (BufferPoolManager.new 2 DiskManager.empty) (mkPageId 1 0)).2 in
  is_dirty_ (BufferPoolManager.pages_ s 0%Z) = false ∧
  pin_count_ (BufferPoolManager.pages_ s 0%Z) = 1%N ∧
  BufferPoolManager.flush_page s (mkPageId 1 9) = (false, s) ∧
  ∃ s', BufferPoolManager.flush_page s (mkPageId 1 0) = (true, s') ∧
        DiskManager.store (BufferPoolManager.disk_manager_ s') !! mkPageId 1 0
        = Some (replicate PAGE_SIZE x00) ∧
        pin_count_ (BufferPoolManager.pages_ s' 0%Z) = 1%N.
Proof.
  intros s. split; [reflexivity|]. split; [reflexivity|].
  destruct (flush_page_spec s (mkPageId 1 9)) as (Hnone & _).
  destruct (flush_page_spec s (mkPageId 1 0)) as (_ & Hsome).
  split; [apply Hnone; reflexivity|].
  destruct (Hsome 0%Z) as (s' & Hrun & _ & Hst & _ & _ & _ & Hpin & _);
    [reflexivity|].
  exists s'. split; [exact Hrun|]. split; [exact Hst|]. exact Hpin.
Defined.

(** ** delete_page *)

(** Claim C8.  [delete_page] on a page that is not resident returns [true]
    and the state is as it was; on a resident page with pin count 0 it
    returns [true] and leaves the page absent, so that a second
    [delete_page] returns [true] again without changing anything. *)
Theorem delete_page_idempotent (s : BufferPoolManager.t) (page_id : PageId) :
  (BufferPoolManager.page_table_ s !! page_id = None →
     BufferPoolManager.delete_page s page_id = (true, s)) ∧
  (∀ f, BufferPoolManager.page_table_ s !! page_id = Some f →
     pin_count_ (BufferPoolManager.pages_ s f) = 0%N →
     ∃ s1, BufferPoolManager.delete_page s page_id = (true, s1) ∧
           BufferPoolManager.page_table_ s1 !! page_id = None ∧
           BufferPoolManager.delete_page s1 page_id = (true, s1)).
Proof.
  split.
  - unfold BufferPoolManager.delete_page. by intros ->.
  - intros f Hf Hz.
    assert (Hrun : ∃ s1, BufferPoolManager.delete_page s page_id = (true, s1) ∧
                         BufferPoolManager.page_table_ s1 !! page_id = None).
    { unfold BufferPoolManager.delete_page. rewrite Hf, Hz. simpl.
      eexists; split; [reflexivity|]. simpl. apply lookup_delete_eq. }
    destruct Hrun as (s1 & Hrun & Habs). exists s1. repeat split; try done.
    unfold BufferPoolManager.delete_page. by rewrite Habs.
Qed.

Lemma delete_page_idempotent_witness :
  let s0 := BufferPoolManager.new 2 DiskManager.empty in
  let s := (BufferPoolManager.unpin_page
              (BufferPoolManager.fetch_page s0 (mkPageId 1 0)).2 (mkPageId 1 0) true).2 in
  BufferPoolManager.delete_page s0 (mkPageId 1 0) = (true, s0) ∧
  ∃ s1, BufferPoolManager.delete_page s (mkPageId 1 0) = (true, s1) ∧
        BufferPoolManager.page_table_ s1 !! mkPageId 1 0 = None ∧
        BufferPoolManager.delete_page s1 (mkPageId 1 0) = (true, s1).
Proof.
  intros s0 s.
  destruct (delete_page_idempotent s0 (mkPageId 1 0)) as (Hnone & _).
  destruct (delete_page_idempotent s (mkPageId 1 0)) as (_ & Hsome).
  split; [apply Hnone; reflexivity|].
  apply (Hsome 0%Z); reflexivity.
Defined.

(** Claim C1, as stated, fails: after [fetch_page], [unpin_page] and
    [delete_page] of one page in a pool of one frame, frame 0 is at once
    in the free list and in the replacer's list (and in its index). *)
Lemma delete_page_keeps_frame_eligible :
  let A := mkPageId 1 0 in
  let s0 := BufferPoolManager.new 1 DiskManager.empty in
  let s1 := (BufferPoolManager.fetch_page s0 A).2 in
  let s2 := (BufferPoolManager.unpin_page s1 A false).2 in
  BufferPoolManager.page_table_ s2 !! A = Some 0%Z ∧
  pin_count_ (BufferPoolManager.pages_ s2 0%Z) = 0%N ∧
  (BufferPoolManager.delete_page s2 A).1 = true ∧
  BufferPoolManager.free_list_ (BufferPoolManager.delete_page s2 A).2 = [0%Z] ∧
  LRUReplacer.LRUlist_ (BufferPoolManager.replacer_ (BufferPoolManager.delete_page s2 A).2)
  = [0%Z] ∧
  0%Z ∈ LRUReplacer.LRUhash_
          (BufferPoolManager.replacer_ (BufferPoolManager.delete_page s2 A).2).
Proof.
  repeat split; reflexivity.
Qed.

(** Claim C1, amended.  [delete_page] on a resident page with pin count 0
    does not call the replacer: the replacer is exactly as before, so the
    frame is eligible afterwards if and only if it was before, and the
    frame is appended at the back of the free list. *)
Theorem delete_page_leaves_replacer (s : BufferPoolManager.t) (page_id : PageId)
    (f : frame_id_t) :
  BufferPoolManager.page_table_ s !! page_id = Some f →
  pin_count_ (BufferPoolManager.pages_ s f) = 0%N →
  ∃ s', BufferPoolManager.delete_page s page_id = (true, s') ∧
        BufferPoolManager.replacer_ s' = BufferPoolManager.replacer_ s ∧
        BufferPoolManager.free_list_ s' = BufferPoolManager.free_list_ s ++ [f].
Proof.
  intros Hf Hz. unfold BufferPoolManager.delete_page. rewrite Hf, Hz. simpl.
  eexists; split; [reflexivity|]. by simpl.
Qed.

Lemma delete_page_leaves_replacer_witness :
  let A := mkPageId 1 0 in
  let s2 := (BufferPoolManager.unpin_page
               (BufferPoolManager.fetch_page
                  (BufferPoolManager.new 1 DiskManager.empty) A).2 A false).2 in
  ∃ s', BufferPoolManager.delete_page s2 A = (true, s') ∧
        BufferPoolManager.replacer_ s' = BufferPoolManager.replacer_ s2 ∧
        BufferPoolManager.free_list_ s' = BufferPoolManager.free_list_ s2 ++ [0%Z].
Proof.
  intros A s2. apply (delete_page_leaves_replacer s2 A 0%Z); reflexivity.
Defined.

(** ** The LRU replacer *)

Section replacer.
Implicit Types (r : LRUReplacer.t) (f g : Z) (l : list Z).

Lemma list_erase_notin f l : f ∉ l → list_erase f l = l.
Proof.
  induction l as [|x l IH]; simpl; [done|].
  intros Hnot. apply not_elem_of_cons in Hnot as [Hne Hl].
  case_decide; [congruence|]. by rewrite IH.
Qed.

Lemma list_erase_elem_of f g l : g ∈ list_erase f l → g ∈ l.
Proof.
  induction l as [|x l IH]; simpl; [done|].
  case_decide; set_solver.
Qed.

Lemma list_erase_filter f l :
  NoDup l → list_erase f l = filter (λ g, g ≠ f) l.
Proof.
  induction 1 as [|x l Hx Hl IH]; simpl; [done|].
  case_decide as Hxf.
  - subst x. rewrite filter_cons_False by naive_solver.
    rewrite <- (list_erase_notin f l Hx) at 1. exact IH.
  - rewrite filter_cons_True by done. by rewrite IH.
Qed.

Lemma list_erase_NoDup f l : NoDup l → NoDup (list_erase f l).
Proof. intros Hl. rewrite list_erase_filter by done. by apply NoDup_filter. Qed.

Lemma lru_wf_new n : lru_wf (LRUReplacer.new n).
Proof. split; simpl; [constructor | set_solver]. Qed.

Lemma unpin_hash r f :
  LRUReplacer.LRUhash_ (LRUReplacer.unpin r f) = {[f]} ∪ LRUReplacer.LRUhash_ r.
Proof. unfold LRUReplacer.unpin. case_decide; simpl; set_solver. Qed.

Lemma unpin_list_fresh r f :
  f ∉ LRUReplacer.LRUhash_ r →
  LRUReplacer.LRUlist_ (LRUReplacer.unpin r f) = f :: LRUReplacer.LRUlist_ r.
Proof. intros Hf. unfold LRUReplacer.unpin. by rewrite decide_True. Qed.

Lemma unpin_list_present r f :
  f ∈ LRUReplacer.LRUhash_ r → LRUReplacer.unpin r f = r.
Proof. intros Hf. unfold LRUReplacer.unpin. rewrite decide_False; [done|]. by intros []. Qed.

Lemma unpin_max_size r f :
  LRUReplacer.max_size_ (LRUReplacer.unpin r f) = LRUReplacer.max_size_ r.
Proof. unfold LRUReplacer.unpin. by case_decide. Qed.

Lemma lru_wf_unpin r f : lru_wf r → lru_wf (LRUReplacer.unpin r f).
Proof.
  intros [Hnd Hco]. unfold LRUReplacer.unpin. case_decide as Hf; [|done].
  split; simpl.
  - constructor; [by rewrite <- Hco | done].
  - intros g. rewrite elem_of_union, elem_of_singleton, elem_of_cons, Hco. done.
Qed.

Lemma pin_list r f :
  lru_wf r →
  LRUReplacer.LRUlist_ (LRUReplacer.pin r f)
  = filter (λ g, g ≠ f) (LRUReplacer.LRUlist_ r).
Proof.
  intros [Hnd Hco]. unfold LRUReplacer.pin. case_decide as Hf; simpl.
  - by apply list_erase_filter.
  - rewrite <- list_erase_filter by done. symmetry. apply list_erase_notin.
    by rewrite <- Hco.
Qed.

Lemma pin_elem_of r f g :
  g ∈ LRUReplacer.LRUlist_ (LRUReplacer.pin r f) → g ∈ LRUReplacer.LRUlist_ r.
Proof.
  unfold LRUReplacer.pin. case_decide; simpl; [|done]. apply list_erase_elem_of.
Qed.

Lemma lru_wf_pin r f : lru_wf r → lru_wf (LRUReplacer.pin r f).
Proof.
  intros Hwf. pose proof (pin_list r f Hwf) as Hl. destruct Hwf as [Hnd Hco].
  split.
  - rewrite Hl. by apply NoDup_filter.
  - intros g. rewrite Hl, list_elem_of_filter, <- Hco.
    unfold LRUReplacer.pin. case_decide as Hf; simpl; set_solver.
Qed.

Lemma victim_empty r :
  LRUReplacer.LRUlist_ r = [] →
  LRUReplacer.victim r = (false, INVALID_FRAME_ID, r).
Proof. intros Hl. unfold LRUReplacer.victim. by rewrite Hl. Qed.

Lemma victim_snoc r l x :
  LRUReplacer.LRUlist_ r = l ++ [x] →
  LRUReplacer.victim r
  = (true, x, LRUReplacer.mk (LRUReplacer.max_size_ r) l (LRUReplacer.LRUhash_ r ∖ {[x]})).
Proof.
  intros Hl. unfold LRUReplacer.victim.
  by rewrite Hl, last_snoc, removelast_last.
Qed.

Lemma victim_cases r :
  (LRUReplacer.LRUlist_ r = [] ∧
   LRUReplacer.victim r = (false, INVALID_FRAME_ID, r)) ∨
  (∃ l x, LRUReplacer.LRUlist_ r = l ++ [x] ∧
   LRUReplacer.victim r
   = (true, x, LRUReplacer.mk (LRUReplacer.max_size_ r) l (LRUReplacer.LRUhash_ r ∖ {[x]}))).
Proof.
  destruct (last (LRUReplacer.LRUlist_ r)) as [x|] eqn:Hlast.
  - apply last_Some in Hlast as [l Hl]. right. exists l, x.
    split; [done|]. by apply victim_snoc.
  - apply last_None in Hlast. left. split; [done|]. by apply victim_empty.
Qed.

Lemma lru_wf_snoc r l x :
  lru_wf r → LRUReplacer.LRUlist_ r = l ++ [x] →
  lru_wf (LRUReplacer.mk (LRUReplacer.max_size_ r) l (LRUReplacer.LRUhash_ r ∖ {[x]})).
Proof.
  intros [Hnd Hco] Hl. rewrite Hl in Hnd, Hco.
  apply NoDup_app in Hnd as (Hndl & Hdisj & _).
  split; simpl; [done|].
  intros g. rewrite elem_of_difference, elem_of_singleton, Hco, elem_of_app.
  rewrite list_elem_of_singleton. split.
  - intros [[Hg|Hg] Hne]; done.
  - intros Hg. split; [by left|]. intros ->. apply (Hdisj x Hg). by left.
Qed.

Lemma lru_wf_victim r : lru_wf r → lru_wf (LRUReplacer.victim r).2.
Proof.
  intros Hwf. destruct (victim_cases r) as [[_ ->]|(l & x & Hl & ->)]; simpl;
    [done|]. by apply lru_wf_snoc.
Qed.

Lemma Size_wf r : lru_wf r → LRUReplacer.Size r = size (LRUReplacer.LRUhash_ r).
Proof.
  intros [Hnd Hco]. unfold LRUReplacer.Size.
  rewrite <- (size_list_to_set (C:=gset Z)) by done.
  f_equal. apply set_eq. intros g. by rewrite elem_of_list_to_set, Hco.
Qed.

Lemma unpin_all_wf fs r :
  lru_wf r →
  lru_wf (unpin_all r fs) ∧
  LRUReplacer.LRUhash_ (unpin_all r fs) = list_to_set fs ∪ LRUReplacer.LRUhash_ r ∧
  LRUReplacer.max_size_ (unpin_all r fs) = LRUReplacer.max_size_ r.
Proof.
  revert r. induction fs as [|f fs IH]; intros r Hwf; simpl.
  - repeat split; try done; try apply Hwf. set_solver.
  - change (unpin_all r (f :: fs)) with (unpin_all (LRUReplacer.unpin r f) fs).
    destruct (IH (LRUReplacer.unpin r f) (lru_wf_unpin r f Hwf)) as (Hwf' & Hh & Hm).
    split; [done|]. split.
    + rewrite Hh, unpin_hash. set_solver.
    + by rewrite Hm, unpin_max_size.
Qed.

End replacer.

(** Claim C10.  The replacer never looks at the capacity it was built
    with: after any run of [unpin] calls on a new replacer, [Size] is the
    number of distinct frame ids in the run, whatever [num_pages] was, and
    [max_size_] still holds [num_pages]. *)
Theorem unpin_ignores_capacity (num_pages : nat) (fs : list frame_id_t) :
  LRUReplacer.Size (unpin_all (LRUReplacer.new num_pages) fs)
  = size (list_to_set fs : gset Z) ∧
  LRUReplacer.max_size_ (unpin_all (LRUReplacer.new num_pages) fs) = num_pages.
Proof.
  destruct (unpin_all_wf fs (LRUReplacer.new num_pages) (lru_wf_new num_pages))
    as (Hwf & Hh & Hm).
  split; [|exact Hm].
  rewrite (Size_wf _ Hwf), Hh. simpl. f_equal. set_solver.
Qed.

(** Three frames in a replacer built for one. *)
Example unpin_over_capacity :
  LRUReplacer.Size (unpin_all (LRUReplacer.new 1) [0; 1; 2; 1]%Z) = 3.
Proof. reflexivity. Qed.

(** ** fetch_page on a resident page *)

(** Claim C9.  On a resident page [fetch_page] returns its frame; the
    frame's pin count goes up by one and the replacer is the old one after
    [pin] of the frame.  Dirty flag, identity and buffer of the frame,
    every other frame, the page table, the free list and the disk are as
    before.  With a coherent replacer the [pin] means that the frame is
    not eligible afterwards and that the other eligible frames are the
    same, in the same order. *)
Theorem fetch_page_hit_frame (s : BufferPoolManager.t) (page_id : PageId)
    (f : frame_id_t) :
  BufferPoolManager.page_table_ s !! page_id = Some f →
  ∃ s', BufferPoolManager.fetch_page s page_id = (Some f, s') ∧
    pin_count_ (BufferPoolManager.pages_ s' f)
    = (pin_count_ (BufferPoolManager.pages_ s f) + 1)%N ∧
    BufferPoolManager.replacer_ s'
    = LRUReplacer.pin (BufferPoolManager.replacer_ s) f ∧
    is_dirty_ (BufferPoolManager.pages_ s' f) = is_dirty_ (BufferPoolManager.pages_ s f) ∧
    id_ (BufferPoolManager.pages_ s' f) = id_ (BufferPoolManager.pages_ s f) ∧
    data_ (BufferPoolManager.pages_ s' f) = data_ (BufferPoolManager.pages_ s f) ∧
    (∀ g, g ≠ f → BufferPoolManager.pages_ s' g = BufferPoolManager.pages_ s g) ∧
    BufferPoolManager.page_table_ s' = BufferPoolManager.page_table_ s ∧
    BufferPoolManager.free_list_ s' = BufferPoolManager.free_list_ s ∧
    BufferPoolManager.disk_manager_ s' = BufferPoolManager.disk_manager_ s ∧
    BufferPoolManager.pool_size_ s' = BufferPoolManager.pool_size_ s ∧
    (lru_wf (BufferPoolManager.replacer_ s) →
       LRUReplacer.LRUlist_ (BufferPoolManager.replacer_ s')
       = filter (λ g, g ≠ f) (LRUReplacer.LRUlist_ (BufferPoolManager.replacer_ s)) ∧
       (f ∉ LRUReplacer.LRUlist_ (BufferPoolManager.replacer_ s')) ∧
       ∀ g, g ≠ f →
            (g ∈ LRUReplacer.LRUlist_ (BufferPoolManager.replacer_ s') ↔
             g ∈ LRUReplacer.LRUlist_ (BufferPoolManager.replacer_ s))).
Proof.
  intros Hf. unfold BufferPoolManager.fetch_page. rewrite Hf.
  eexists; split; [reflexivity|]. frames.
  split_and!; try done.
  - lia.
  - intros g Hg. by frames.
  - intros Hwf. rewrite (pin_list _ f Hwf). split_and!; [done| |].
    + rewrite list_elem_of_filter. naive_solver.
    + intros g Hg. rewrite list_elem_of_filter. naive_solver.
Qed.

(** The page is fetched a second time while its frame is eligible. *)
Lemma fetch_page_hit_frame_witness :
  let A := mkPageId 1 0 in
  let s := (BufferPoolManager.unpin_page
              (BufferPoolManager.fetch_page
                 (BufferPoolManager.new 2 DiskManager.empty) A).2 A true).2 in
  LRUReplacer.LRUlist_ (BufferPoolManager.replacer_ s) = [0%Z] ∧
  ∃ s', BufferPoolManager.fetch_page s A = (Some 0%Z, s') ∧
        pin_count_ (BufferPoolManager.pages_ s' 0%Z) = 1%N ∧
        LRUReplacer.LRUlist_ (BufferPoolManager.replacer_ s') = [] ∧
        is_dirty_ (BufferPoolManager.pages_ s' 0%Z) = true.
Proof.
  intros A s. split; [reflexivity|].
  assert (Hwf : lru_wf (BufferPoolManager.replacer_ s)).
  { change (BufferPoolManager.replacer_ s)
      with (LRUReplacer.unpin (LRUReplacer.new 2) 0%Z).
    apply lru_wf_unpin, lru_wf_new. }
  destruct (fetch_page_hit_frame s A 0%Z eq_refl)
    as (s' & Hrun & Hpin & _ & Hd & _ & _ & _ & _ & _ & _ & _ & Hpol).
  destruct (Hpol Hwf) as (Hl & _).
  exists s'. split; [exact Hrun|]. split; [exact Hpin|]. split; [exact Hl|]. exact Hd.
Defined.

(** ** update_page *)

Section update_page.
Variables (s : BufferPoolManager.t) (page : frame_id_t) (new_page_id : PageId).

(** Both callers pass a pointer to [pages_[frame_id]] together with
    [frame_id]; this is the call described here. *)

Lemma update_page_frame :
  BufferPoolManager.pages_ (BufferPoolManager.update_page s page new_page_id page) page
  = mkPage new_page_id (replicate PAGE_SIZE x00) false 0.
Proof.
  unfold BufferPoolManager.update_page.
  destruct (is_dirty_ (BufferPoolManager.pages_ s page)); by frames.
Qed.

Lemma update_page_other_frames g :
  g ≠ page →
  BufferPoolManager.pages_ (BufferPoolManager.update_page s page new_page_id page) g
  = BufferPoolManager.pages_ s g.
Proof.
  intros Hg. unfold BufferPoolManager.update_page.
  destruct (is_dirty_ (BufferPoolManager.pages_ s page)); by frames.
Qed.

Lemma update_page_table :
  BufferPoolManager.page_table_ (BufferPoolManager.update_page s page new_page_id page)
  = <[new_page_id := page]>
      (delete (id_ (BufferPoolManager.pages_ s page)) (BufferPoolManager.page_table_ s)).
Proof.
  unfold BufferPoolManager.update_page.
  destruct (is_dirty_ (BufferPoolManager.pages_ s page)); by frames.
Qed.

Lemma update_page_rest :
  BufferPoolManager.free_list_ (BufferPoolManager.update_page s page new_page_id page)
  = BufferPoolManager.free_list_ s ∧
  BufferPoolManager.replacer_ (BufferPoolManager.update_page s page new_page_id page)
  = BufferPoolManager.replacer_ s ∧
  BufferPoolManager.pool_size_ (BufferPoolManager.update_page s page new_page_id page)
  = BufferPoolManager.pool_size_ s.
Proof.
  unfold BufferPoolManager.update_page.
  destruct (is_dirty_ (BufferPoolManager.pages_ s page)); by frames.
Qed.

Lemma update_page_disk :
  BufferPoolManager.disk_manager_ (BufferPoolManager.update_page s page new_page_id page)
  = if is_dirty_ (BufferPoolManager.pages_ s page)
    then DiskManager.write_page (BufferPoolManager.disk_manager_ s)
           (fd (id_ (BufferPoolManager.pages_ s page)))
           (page_no (id_ (BufferPoolManager.pages_ s page)))
           (data_ (BufferPoolManager.pages_ s page))
    else BufferPoolManager.disk_manager_ s.
Proof.
  unfold BufferPoolManager.update_page.
  destruct (is_dirty_ (BufferPoolManager.pages_ s page)); by frames.
Qed.

(** When the frame is dirty, [update_page] makes exactly one disk call,
    a [write_page] of the buffer the frame had on entry at the identity
    it had on entry, so that this slot then holds that buffer and no
    other slot changes; when the frame is clean the disk is not touched.
    In both cases the frame then carries the new identity with a zeroed
    buffer, a clear dirty flag and pin count 0. *)
Lemma update_page_writeback :
  let old := BufferPoolManager.pages_ s page in
  let s' := BufferPoolManager.update_page s page new_page_id page in
  (is_dirty_ old = true →
     DiskManager.trace (BufferPoolManager.disk_manager_ s')
     = DiskManager.EvWrite (id_ old) (data_ old)
         :: DiskManager.trace (BufferPoolManager.disk_manager_ s) ∧
     DiskManager.store (BufferPoolManager.disk_manager_ s') !! id_ old
     = Some (data_ old) ∧
     (∀ i, i ≠ id_ old →
        DiskManager.store (BufferPoolManager.disk_manager_ s') !! i
        = DiskManager.store (BufferPoolManager.disk_manager_ s) !! i)) ∧
  (is_dirty_ old = false →
     BufferPoolManager.disk_manager_ s' = BufferPoolManager.disk_manager_ s) ∧
  BufferPoolManager.pages_ s' page
  = mkPage new_page_id (replicate PAGE_SIZE x00) false 0.
Proof.
  intros old s'. subst old s'. split; [|split].
  - intros Hd. rewrite update_page_disk, Hd. simpl. rewrite PageId_eta.
    repeat split.
    + apply lookup_insert_eq.
    + intros i Hi. by apply lookup_insert_ne.
  - intros Hd. by rewrite update_page_disk, Hd.
  - apply update_page_frame.
Qed.

End update_page.

(** ** The pool invariant *)

Section invariants.
Implicit Types (s : BufferPoolManager.t) (f g : Z) (id : PageId).

Lemma pool_inv_new n d : pool_inv (BufferPoolManager.new n d).
Proof.
  split; simpl.
  - apply lru_wf_new.
  - apply NoDup_fmap_2; [apply _ | apply NoDup_seq].
  - intros id f Hl. by rewrite lookup_empty in Hl.
  - intros f Hf. split; [done|].
    apply list_elem_of_fmap in Hf as (i & -> & Hi). apply elem_of_seq in Hi.
    unfold frame_in_range; simpl; lia.
  - intros f Hf. by apply elem_of_nil in Hf.
Qed.

(** A step that changes neither the bookkeeping structures nor the
    identity and pin count of any frame. *)
Lemma pool_inv_same_meta s s' :
  pool_inv s →
  BufferPoolManager.page_table_ s' = BufferPoolManager.page_table_ s →
  BufferPoolManager.free_list_ s' = BufferPoolManager.free_list_ s →
  BufferPoolManager.replacer_ s' = BufferPoolManager.replacer_ s →
  BufferPoolManager.pool_size_ s' = BufferPoolManager.pool_size_ s →
  (∀ g, id_ (BufferPoolManager.pages_ s' g) = id_ (BufferPoolManager.pages_ s g) ∧
        pin_count_ (BufferPoolManager.pages_ s' g)
        = pin_count_ (BufferPoolManager.pages_ s g)) →
  pool_inv s'.
Proof.
  intros [Hlru Hnd Htab Hfree Hel] Hpt Hfl Hr Hn Hm.
  split; unfold frame_in_range in *; rewrite ?Hpt, ?Hfl, ?Hr, ?Hn; try done.
  - intros id f Hf. destruct (Hm f) as [-> _]. by apply Htab.
  - intros f Hf. destruct (Hm f) as [_ ->]. by apply Hfree.
  - intros f Hf. destruct (Hm f) as [_ ->]. by apply Hel.
Qed.

(** The three outcomes of [find_victim_page]. *)
Lemma find_victim_page_cases s :
  (∃ f rest, BufferPoolManager.free_list_ s = f :: rest ∧
     BufferPoolManager.find_victim_page s
     = (true, f, BufferPoolManager.with_free_list s rest)) ∨
  (BufferPoolManager.free_list_ s = [] ∧
   LRUReplacer.LRUlist_ (BufferPoolManager.replacer_ s) = [] ∧
   BufferPoolManager.find_victim_page s = (false, INVALID_FRAME_ID, s)) ∨
  (∃ l x, BufferPoolManager.free_list_ s = [] ∧
     LRUReplacer.LRUlist_ (BufferPoolManager.replacer_ s) = l ++ [x] ∧
     BufferPoolManager.find_victim_page s
     = (true, x, BufferPoolManager.with_replacer s
                   (LRUReplacer.mk (LRUReplacer.max_size_ (BufferPoolManager.replacer_ s))
                      l (LRUReplacer.LRUhash_ (BufferPoolManager.replacer_ s) ∖ {[x]})))).
Proof.
  unfold BufferPoolManager.find_victim_page.
  destruct (BufferPoolManager.free_list_ s) as [|f rest] eqn:Hfl.
  - right.
    destruct (victim_cases (BufferPoolManager.replacer_ s))
      as [[Hl ->]|(l & x & Hl & ->)].
    + left. by rewrite with_replacer_id.
    + right. by exists l, x.
  - left. by exists f, rest.
Qed.

(** A successful [find_victim_page] keeps the invariant and hands out an
    in-range frame that is no longer in the free list. *)
Lemma find_victim_page_inv s f s1 :
  pool_inv s →
  BufferPoolManager.find_victim_page s = (true, f, s1) →
  pool_inv s1 ∧ (f ∉ BufferPoolManager.free_list_ s1) ∧ frame_in_range s1 f ∧
  BufferPoolManager.pages_ s1 = BufferPoolManager.pages_ s ∧
  BufferPoolManager.page_table_ s1 = BufferPoolManager.page_table_ s ∧
  BufferPoolManager.disk_manager_ s1 = BufferPoolManager.disk_manager_ s ∧
  (∀ g, g ∈ BufferPoolManager.free_list_ s1 → g ∈ BufferPoolManager.free_list_ s) ∧
  (∀ g, g ∈ LRUReplacer.LRUlist_ (BufferPoolManager.replacer_ s1) →
        g ∈ LRUReplacer.LRUlist_ (BufferPoolManager.replacer_ s)) ∧
  BufferPoolManager.pool_size_ s1 = BufferPoolManager.pool_size_ s.
Proof.
  intros [Hlru Hnd Htab Hfree Hel] Hrun.
  destruct (find_victim_page_cases s)
    as [(f' & rest & Hfl & Heq)|[(_ & _ & Heq)|(l & x & Hfl & Hl & Heq)]];
    rewrite Heq in Hrun; simplify_eq.
  - rewrite Hfl in Hnd, Htab, Hfree. apply NoDup_cons in Hnd as [Hf Hrest].
    assert (Hsub : ∀ g, g ∈ rest → g ∈ f :: rest) by set_solver.
    split_and!; simpl; try done.
    + split; simpl; try done.
      * intros id g Hg. destruct (Htab id g Hg) as (? & ? & ?). set_solver.
      * intros g Hg. by apply Hfree, Hsub.
    + apply (Hfree f). by left.
    + by rewrite Hfl.
  - assert (Hsub : ∀ g, g ∈ l → g ∈ LRUReplacer.LRUlist_ (BufferPoolManager.replacer_ s)).
    { intros g Hg. rewrite Hl. set_solver. }
    assert (Hx : f ∈ LRUReplacer.LRUlist_ (BufferPoolManager.replacer_ s)).
    { rewrite Hl. set_solver. }
    split_and!; simpl; try done.
    + split; simpl; try done.
      * by apply lru_wf_snoc.
      * intros g Hg. by apply Hel, Hsub.
    + rewrite Hfl. apply not_elem_of_nil.
    + apply (Hel f Hx).
Qed.

(** Installing a page into a frame that was handed out: the frame takes
    the new identity, the page table trades the frame's old entry for
    the new one, and the replacer sees [pin] of the frame. *)
Lemma pool_inv_install s1 s' f id :
  pool_inv s1 →
  f ∉ BufferPoolManager.free_list_ s1 →
  frame_in_range s1 f →
  id_ (BufferPoolManager.pages_ s' f) = id →
  (∀ g, g ≠ f → BufferPoolManager.pages_ s' g = BufferPoolManager.pages_ s1 g) →
  BufferPoolManager.page_table_ s'
  = <[id := f]> (delete (id_ (BufferPoolManager.pages_ s1 f))
                   (BufferPoolManager.page_table_ s1)) →
  BufferPoolManager.free_list_ s' = BufferPoolManager.free_list_ s1 →
  BufferPoolManager.replacer_ s'
  = LRUReplacer.pin (BufferPoolManager.replacer_ s1) f →
  BufferPoolManager.pool_size_ s' = BufferPoolManager.pool_size_ s1 →
  pool_inv s'.
Proof.
  intros [Hlru Hnd Htab Hfree Hel] Hf Hrange Hid Hoth Hpt Hfl Hr Hn.
  split; unfold frame_in_range in *; rewrite ?Hpt, ?Hfl, ?Hr, ?Hn.
  - by apply lru_wf_pin.
  - done.
  - intros id' g Hg. destruct (decide (id' = id)) as [->|Hne].
    + rewrite lookup_insert_eq in Hg. by simplify_eq.
    + rewrite lookup_insert_ne in Hg by done.
      apply lookup_delete_Some in Hg as [Hold Hg].
      destruct (Htab id' g Hg) as (Hgid & ? & ?).
      assert (g ≠ f) by (intros ->; congruence).
      by rewrite Hoth.
  - intros g Hg. rewrite Hoth by (intros ->; done). by apply Hfree.
  - intros g Hg. rewrite (pin_list _ f Hlru) in Hg.
    apply list_elem_of_filter in Hg as [Hne Hg]. rewrite Hoth by done. by apply Hel.
Qed.

End invariants.

Arguments BufferPoolManager.update_page : simpl never.

(** ** The miss path of fetch_page and new_page *)

Section steps.
Implicit Types (s : BufferPoolManager.t) (f g : Z) (id : PageId).

Lemma fetch_page_exhausted s id f s1 :
  BufferPoolManager.page_table_ s !! id = None →
  BufferPoolManager.find_victim_page s = (false, f, s1) →
  BufferPoolManager.fetch_page s id = (None, s1).
Proof. intros Hmiss Hfv. unfold BufferPoolManager.fetch_page. by rewrite Hmiss, Hfv. Qed.

Lemma new_page_exhausted s id f s1 :
  BufferPoolManager.find_victim_page s = (false, f, s1) →
  BufferPoolManager.new_page s id = (None, id, s1).
Proof. intros Hfv. unfold BufferPoolManager.new_page. by rewrite Hfv. Qed.

(** A miss that finds a frame: what [fetch_page] returns, and the state
    it leaves, described through the state [s1] that
    [find_victim_page] left. *)
Lemma fetch_page_miss s id f s1 :
  BufferPoolManager.page_table_ s !! id = None →
  BufferPoolManager.find_victim_page s = (true, f, s1) →
  ∃ s', BufferPoolManager.fetch_page s id = (Some f, s') ∧
    id_ (BufferPoolManager.pages_ s' f) = id ∧
    is_dirty_ (BufferPoolManager.pages_ s' f) = false ∧
    pin_count_ (BufferPoolManager.pages_ s' f) = 1%N ∧
    (∀ g, g ≠ f → BufferPoolManager.pages_ s' g = BufferPoolManager.pages_ s1 g) ∧
    BufferPoolManager.page_table_ s'
    = <[id := f]> (delete (id_ (BufferPoolManager.pages_ s1 f))
                     (BufferPoolManager.page_table_ s1)) ∧
    BufferPoolManager.free_list_ s' = BufferPoolManager.free_list_ s1 ∧
    BufferPoolManager.replacer_ s'
    = LRUReplacer.pin (BufferPoolManager.replacer_ s1) f ∧
    BufferPoolManager.pool_size_ s' = BufferPoolManager.pool_size_ s1 ∧
    DiskManager.store (BufferPoolManager.disk_manager_ s')
    = DiskManager.store
        (BufferPoolManager.disk_manager_ (BufferPoolManager.update_page s1 f id f)).
Proof.
  intros Hmiss Hfv. unfold BufferPoolManager.fetch_page. rewrite Hmiss, Hfv.
  pose proof (update_page_frame s1 f id) as Hfr.
  pose proof (update_page_other_frames s1 f id) as Hoth.
  pose proof (update_page_table s1 f id) as Hpt.
  destruct (update_page_rest s1 f id) as (Hfl & Hr & Hn).
  generalize dependent (BufferPoolManager.update_page s1 f id f). intros s2 **.
  eexists; split; [reflexivity|].
  frames. rewrite Hfr, Hpt, Hfl, Hr, Hn.
  split_and!; try done.
  intros g Hg. frames. by apply Hoth.
Qed.

(** The same for [new_page], whose new identity is the file of
    [*page_id] with the page number that [allocate_page] returned. *)
Lemma new_page_success s id f s1 :
  BufferPoolManager.find_victim_page s = (true, f, s1) →
  let alloc := DiskManager.allocate_page (BufferPoolManager.disk_manager_ s1) (fd id) in
  let id' := mkPageId (fd id) alloc.1 in
  ∃ s', BufferPoolManager.new_page s id = (Some f, id', s') ∧
    BufferPoolManager.pages_ s' f = mkPage id' (replicate PAGE_SIZE x00) false 1 ∧
    (∀ g, g ≠ f → BufferPoolManager.pages_ s' g = BufferPoolManager.pages_ s1 g) ∧
    BufferPoolManager.page_table_ s'
    = <[id' := f]> (delete (id_ (BufferPoolManager.pages_ s1 f))
                      (BufferPoolManager.page_table_ s1)) ∧
    BufferPoolManager.free_list_ s' = BufferPoolManager.free_list_ s1 ∧
    BufferPoolManager.replacer_ s'
    = LRUReplacer.pin (BufferPoolManager.replacer_ s1) f ∧
    BufferPoolManager.pool_size_ s' = BufferPoolManager.pool_size_ s1 ∧
    BufferPoolManager.disk_manager_ s'
    = BufferPoolManager.disk_manager_
        (BufferPoolManager.update_page
           (BufferPoolManager.with_disk s1 alloc.2) f id' f).
Proof.
  intros Hfv alloc id'. unfold BufferPoolManager.new_page. rewrite Hfv.
  pose proof (update_page_frame (BufferPoolManager.with_disk s1 alloc.2) f id') as Hfr.
  pose proof (update_page_other_frames (BufferPoolManager.with_disk s1 alloc.2) f id')
    as Hoth.
  pose proof (update_page_table (BufferPoolManager.with_disk s1 alloc.2) f id') as Hpt.
  destruct (update_page_rest (BufferPoolManager.with_disk s1 alloc.2) f id')
    as (Hfl & Hr & Hn).
  change (negb true) with false. cbv iota.
  change (DiskManager.allocate_page (BufferPoolManager.disk_manager_ s1) (fd id))
    with (alloc.1, alloc.2).
  cbv iota beta. fold id'.
  generalize dependent
    (BufferPoolManager.update_page (BufferPoolManager.with_disk s1 alloc.2) f id' f).
  intros s2 **.
  eexists; split; [reflexivity|].
  frames. rewrite Hfr, Hpt, Hfl, Hr, Hn.
  split_and!; try done.
  intros g Hg. frames. by apply Hoth.
Qed.

End steps.

(** ** Every call keeps the pool invariant *)

Section preservation.
Implicit Types (s : BufferPoolManager.t) (f g : Z) (id : PageId).

Lemma pool_inv_fetch_page s id :
  pool_inv s → pool_inv (BufferPoolManager.fetch_page s id).2.
Proof.
  intros Hinv.
  destruct (BufferPoolManager.page_table_ s !! id) as [f|] eqn:Hpt.
  - unfold BufferPoolManager.fetch_page. rewrite Hpt. simpl.
    destruct Hinv as [Hlru Hnd Htab Hfree Hel].
    destruct (Htab id f Hpt) as (Hid & Hnf & Hrange).
    split; simpl.
    + by apply lru_wf_pin.
    + done.
    + intros id' g Hg. destruct (Htab id' g Hg) as (? & ? & ?).
      split_and!; try done.
      destruct (decide (g = f)) as [->|Hne]; by frames.
    + intros g Hg. rewrite fn_lookup_insert_ne by (intros ->; done). by apply Hfree.
    + intros g Hg. rewrite (pin_list _ f Hlru) in Hg.
      apply list_elem_of_filter in Hg as [Hne Hg].
      rewrite fn_lookup_insert_ne by done. by apply Hel.
  - destruct (BufferPoolManager.find_victim_page s) as [[ok f] s1] eqn:Hfv.
    destruct ok.
    + destruct (find_victim_page_inv s f s1 Hinv Hfv) as (Hinv1 & Hnf & Hrange & _).
      destruct (fetch_page_miss s id f s1 Hpt Hfv)
        as (s' & -> & Hid & _ & _ & Hoth & Htab & Hfl & Hr & Hn & _).
      by apply (pool_inv_install s1 s' f id).
    + rewrite (fetch_page_exhausted s id f s1 Hpt Hfv). simpl.
      destruct (find_victim_page_cases s)
        as [(? & ? & _ & Heq)|[(_ & _ & Heq)|(? & ? & _ & _ & Heq)]];
        rewrite Heq in Hfv; by simplify_eq.
Qed.

Lemma pool_inv_new_page s id :
  pool_inv s → pool_inv (BufferPoolManager.new_page s id).2.
Proof.
  intros Hinv.
  destruct (BufferPoolManager.find_victim_page s) as [[ok f] s1] eqn:Hfv.
  destruct ok.
  - destruct (find_victim_page_inv s f s1 Hinv Hfv) as (Hinv1 & Hnf & Hrange & _).
    destruct (new_page_success s id f s1 Hfv)
      as (s' & -> & Hfr & Hoth & Htab & Hfl & Hr & Hn & _).
    apply (pool_inv_install s1 s' f
             (mkPageId (fd id)
                (DiskManager.allocate_page (BufferPoolManager.disk_manager_ s1) (fd id)).1));
      try done.
    by rewrite Hfr.
  - rewrite (new_page_exhausted s id f s1 Hfv). simpl.
    destruct (find_victim_page_cases s)
      as [(? & ? & _ & Heq)|[(_ & _ & Heq)|(? & ? & _ & _ & Heq)]];
      rewrite Heq in Hfv; by simplify_eq.
Qed.

Lemma unpin_elem_of (r : LRUReplacer.t) f g :
  g ∈ LRUReplacer.LRUlist_ (LRUReplacer.unpin r f) →
  g = f ∨ g ∈ LRUReplacer.LRUlist_ r.
Proof.
  unfold LRUReplacer.unpin. case_decide; simpl; [|by right].
  rewrite elem_of_cons. naive_solver.
Qed.

Lemma pool_inv_unpin_page s id is_dirty :
  pool_inv s → pool_inv (BufferPoolManager.unpin_page s id is_dirty).2.
Proof.
  intros Hinv.
  destruct (BufferPoolManager.page_table_ s !! id) as [f|] eqn:Hpt;
    [|unfold BufferPoolManager.unpin_page; by rewrite Hpt].
  destruct (decide (pin_count_ (BufferPoolManager.pages_ s f) = 0%N)) as [Hz|Hnz];
    [unfold BufferPoolManager.unpin_page; by rewrite Hpt, Hz|].
  destruct (unpin_page_success s id is_dirty f Hpt Hnz)
    as (s' & -> & Hpin & Hrep & _ & Hid' & _ & Hoth & Htab' & Hfl & _ & Hn).
  destruct Hinv as [Hlru Hnd Htab Hfree Hel].
  destruct (Htab id f Hpt) as (Hid & Hnf & Hrange).
  split; simpl; unfold frame_in_range in *; rewrite ?Htab', ?Hfl, ?Hn.
  - rewrite Hrep. case_decide; [by apply lru_wf_unpin | done].
  - done.
  - intros id' g Hg. destruct (Htab id' g Hg) as (? & ? & ?).
    split_and!; try done; try lia.
    destruct (decide (g = f)) as [->|Hne]; [congruence | by rewrite Hoth].
  - intros g Hg. rewrite Hoth by (intros ->; done). by apply Hfree.
  - intros g Hg. rewrite Hrep in Hg.
    assert (Hcase : (g = f ∧ pin_count_ (BufferPoolManager.pages_ s' f) = 0%N) ∨
                    (g ≠ f ∧ g ∈ LRUReplacer.LRUlist_ (BufferPoolManager.replacer_ s))).
    { case_decide as Hz.
      - destruct (decide (g = f)) as [->|Hne]; [by left|right].
        apply unpin_elem_of in Hg. naive_solver.
      - right. split; [|done]. intros ->. destruct (Hel f Hg) as [? _]. done. }
    destruct Hcase as [[-> Hz]|[Hne Hg']]; [done|].
    rewrite Hoth by done. by apply Hel.
Qed.

Lemma pool_inv_flush_page s id :
  pool_inv s → pool_inv (BufferPoolManager.flush_page s id).2.
Proof.
  intros Hinv. unfold BufferPoolManager.flush_page.
  destruct (BufferPoolManager.page_table_ s !! id) as [f|] eqn:Hpt; [|done].
  apply (pool_inv_same_meta s); try done.
  intros g. destruct (decide (g = f)) as [->|Hne]; by frames.
Qed.

Lemma pool_inv_delete_page s id :
  pool_inv s → pool_inv (BufferPoolManager.delete_page s id).2.
Proof.
  intros Hinv. unfold BufferPoolManager.delete_page.
  destruct (BufferPoolManager.page_table_ s !! id) as [f|] eqn:Hpt; [|done].
  destruct (N.eqb_spec (pin_count_ (BufferPoolManager.pages_ s f)) 0) as [Hz|Hnz];
    [|done].
  destruct Hinv as [Hlru Hnd Htab Hfree Hel].
  destruct (Htab id f Hpt) as (Hid & Hnf & Hrange).
  simpl. split; simpl.
  - done.
  - apply NoDup_app. split_and!; [done| |apply NoDup_singleton].
    intros g Hg Hg'. apply list_elem_of_singleton in Hg'. by subst.
  - intros id' g Hg. apply lookup_delete_Some in Hg as [Hne Hg].
    destruct (Htab id' g Hg) as (Hgid & ? & ?).
    assert (g ≠ f) by (intros ->; congruence).
    split_and!; try done; [by frames|].
    rewrite elem_of_app, list_elem_of_singleton. naive_solver.
  - intros g Hg. apply elem_of_app in Hg as [Hg|Hg].
    + rewrite !fn_lookup_insert_ne by (intros ->; done). by apply Hfree.
    + apply list_elem_of_singleton in Hg as ->. by frames.
  - intros g Hg. destruct (decide (g = f)) as [->|Hne].
    + by frames.
    + rewrite !fn_lookup_insert_ne by done. by apply Hel.
Qed.

Lemma flush_frame_meta file s i :
  let s' := BufferPoolManager.flush_frame file s i in
  BufferPoolManager.page_table_ s' = BufferPoolManager.page_table_ s ∧
  BufferPoolManager.free_list_ s' = BufferPoolManager.free_list_ s ∧
  BufferPoolManager.replacer_ s' = BufferPoolManager.replacer_ s ∧
  BufferPoolManager.pool_size_ s' = BufferPoolManager.pool_size_ s ∧
  (∀ g, id_ (BufferPoolManager.pages_ s' g) = id_ (BufferPoolManager.pages_ s g) ∧
        pin_count_ (BufferPoolManager.pages_ s' g)
        = pin_count_ (BufferPoolManager.pages_ s g)).
Proof.
  unfold BufferPoolManager.flush_frame.
  destruct (_ && _); simpl; split_and!; try done.
  intros g. destruct (decide (g = Z.of_nat i)) as [->|Hne]; by frames.
Qed.

Lemma flush_frames_meta file (l : list nat) s :
  let s' := foldl (BufferPoolManager.flush_frame file) s l in
  BufferPoolManager.page_table_ s' = BufferPoolManager.page_table_ s ∧
  BufferPoolManager.free_list_ s' = BufferPoolManager.free_list_ s ∧
  BufferPoolManager.replacer_ s' = BufferPoolManager.replacer_ s ∧
  BufferPoolManager.pool_size_ s' = BufferPoolManager.pool_size_ s ∧
  (∀ g, id_ (BufferPoolManager.pages_ s' g) = id_ (BufferPoolManager.pages_ s g) ∧
        pin_count_ (BufferPoolManager.pages_ s' g)
        = pin_count_ (BufferPoolManager.pages_ s g)).
Proof.
  revert s. induction l as [|i l IH]; intros s; simpl; [done|].
  destruct (IH (BufferPoolManager.flush_frame file s i)) as (-> & -> & -> & -> & Hm).
  destruct (flush_frame_meta file s i) as (-> & -> & -> & -> & Hm').
  split_and!; try done.
  intros g. destruct (Hm g) as [-> ->]. apply Hm'.
Qed.

Lemma pool_inv_flush_all_pages s file :
  pool_inv s → pool_inv (BufferPoolManager.flush_all_pages s file).
Proof.
  intros Hinv. unfold BufferPoolManager.flush_all_pages.
  destruct (flush_frames_meta file (seq 0 (BufferPoolManager.pool_size_ s)) s)
    as (? & ? & ? & ? & ?).
  by apply (pool_inv_same_meta s).
Qed.

Lemma pool_inv_run_call s c : pool_inv s → pool_inv (run_call s c).
Proof.
  intros Hinv. destruct c; simpl.
  - by apply pool_inv_fetch_page.
  - by apply pool_inv_new_page.
  - by apply pool_inv_unpin_page.
  - by apply pool_inv_flush_page.
  - by apply pool_inv_delete_page.
  - by apply pool_inv_flush_all_pages.
  - apply (pool_inv_same_meta s); try done.
    intros g. destruct (decide (g = f)) as [->|Hne]; by frames.
Qed.

Lemma pool_inv_run_calls cs s : pool_inv s → pool_inv (run_calls s cs).
Proof.
  revert s. induction cs as [|c cs IH]; intros s Hinv; [done|].
  apply (IH (run_call s c)). by apply pool_inv_run_call.
Qed.

End preservation.

(** ** What a call can add to the free list and to the eligible frames *)

Section monotone.
Implicit Types (s : BufferPoolManager.t) (f g : Z) (id : PageId).

Lemma find_victim_page_exhausted s f s1 :
  BufferPoolManager.find_victim_page s = (false, f, s1) → s1 = s.
Proof.
  intros Hfv.
  destruct (find_victim_page_cases s)
    as [(? & ? & _ & Heq)|[(_ & _ & Heq)|(? & ? & _ & _ & Heq)]];
    rewrite Heq in Hfv; by simplify_eq.
Qed.

(** [fetch_page] never adds a frame to the free list or to the
    replacer's list. *)
Lemma fetch_page_shrinks s id :
  pool_inv s →
  BufferPoolManager.pool_size_ (BufferPoolManager.fetch_page s id).2
  = BufferPoolManager.pool_size_ s ∧
  (∀ g, g ∈ BufferPoolManager.free_list_ (BufferPoolManager.fetch_page s id).2 →
        g ∈ BufferPoolManager.free_list_ s) ∧
  (∀ g, g ∈ LRUReplacer.LRUlist_
              (BufferPoolManager.replacer_ (BufferPoolManager.fetch_page s id).2) →
        g ∈ LRUReplacer.LRUlist_ (BufferPoolManager.replacer_ s)).
Proof.
  intros Hinv.
  destruct (BufferPoolManager.page_table_ s !! id) as [f|] eqn:Hpt.
  - unfold BufferPoolManager.fetch_page. rewrite Hpt. simpl.
    split_and!; try done. intros g. apply pin_elem_of.
  - destruct (BufferPoolManager.find_victim_page s) as [[ok f] s1] eqn:Hfv.
    destruct ok.
    + destruct (find_victim_page_inv s f s1 Hinv Hfv)
        as (_ & _ & _ & _ & _ & _ & Hfl1 & Hl1 & Hn1).
      destruct (fetch_page_miss s id f s1 Hpt Hfv)
        as (s' & -> & _ & _ & _ & _ & _ & Hfl & Hr & Hn & _).
      simpl. rewrite Hfl, Hr, Hn. split_and!; try done.
      intros g Hg. by apply Hl1, (pin_elem_of _ f).
    + rewrite (fetch_page_exhausted s id f s1 Hpt Hfv). simpl.
      by rewrite (find_victim_page_exhausted s f s1 Hfv).
Qed.

Lemma new_page_shrinks s id :
  pool_inv s →
  BufferPoolManager.pool_size_ (BufferPoolManager.new_page s id).2
  = BufferPoolManager.pool_size_ s ∧
  (∀ g, g ∈ BufferPoolManager.free_list_ (BufferPoolManager.new_page s id).2 →
        g ∈ BufferPoolManager.free_list_ s) ∧
  (∀ g, g ∈ LRUReplacer.LRUlist_
              (BufferPoolManager.replacer_ (BufferPoolManager.new_page s id).2) →
        g ∈ LRUReplacer.LRUlist_ (BufferPoolManager.replacer_ s)).
Proof.
  intros Hinv.
  destruct (BufferPoolManager.find_victim_page s) as [[ok f] s1] eqn:Hfv.
  destruct ok.
  - destruct (find_victim_page_inv s f s1 Hinv Hfv)
      as (_ & _ & _ & _ & _ & _ & Hfl1 & Hl1 & Hn1).
    destruct (new_page_success s id f s1 Hfv)
      as (s' & -> & _ & _ & _ & Hfl & Hr & Hn & _).
    simpl. rewrite Hfl, Hr, Hn. split_and!; try done.
    intros g Hg. by apply Hl1, (pin_elem_of _ f).
  - rewrite (new_page_exhausted s id f s1 Hfv). simpl.
    by rewrite (find_victim_page_exhausted s f s1 Hfv).
Qed.

Lemma unpin_page_pool_size s id is_dirty :
  BufferPoolManager.pool_size_ (BufferPoolManager.unpin_page s id is_dirty).2
  = BufferPoolManager.pool_size_ s.
Proof.
  unfold BufferPoolManager.unpin_page.
  destruct (BufferPoolManager.page_table_ s !! id) as [f|]; [|done].
  destruct (_ <=? _)%N; [done|]. simpl.
  destruct (_ =? _)%N; by destruct is_dirty.
Qed.

Lemma flush_page_pool_size s id :
  BufferPoolManager.pool_size_ (BufferPoolManager.flush_page s id).2
  = BufferPoolManager.pool_size_ s.
Proof.
  unfold BufferPoolManager.flush_page.
  by destruct (BufferPoolManager.page_table_ s !! id).
Qed.

Lemma delete_page_pool_size s id :
  BufferPoolManager.pool_size_ (BufferPoolManager.delete_page s id).2
  = BufferPoolManager.pool_size_ s.
Proof.
  unfold BufferPoolManager.delete_page.
  destruct (BufferPoolManager.page_table_ s !! id) as [f|]; [|done].
  by destruct (negb _).
Qed.

Lemma run_call_pool_size s c :
  pool_inv s →
  BufferPoolManager.pool_size_ (run_call s c) = BufferPoolManager.pool_size_ s.
Proof.
  intros Hinv. destruct c; simpl.
  - by apply fetch_page_shrinks.
  - by apply new_page_shrinks.
  - apply unpin_page_pool_size.
  - apply flush_page_pool_size.
  - apply delete_page_pool_size.
  - unfold BufferPoolManager.flush_all_pages.
    by destruct (flush_frames_meta file (seq 0 (BufferPoolManager.pool_size_ s)) s)
      as (_ & _ & _ & ? & _).
  - done.
Qed.

Lemma run_calls_pool_size cs s :
  pool_inv s →
  BufferPoolManager.pool_size_ (run_calls s cs) = BufferPoolManager.pool_size_ s.
Proof.
  revert s. induction cs as [|c cs IH]; intros s Hinv; [done|].
  change (run_calls s (c :: cs)) with (run_calls (run_call s c) cs).
  rewrite IH by (by apply pool_inv_run_call). by apply run_call_pool_size.
Qed.

(** With every frame of the pool pinned, the invariant leaves nothing in
    the free list and nothing eligible. *)
Lemma all_pinned_exhausted s :
  pool_inv s →
  (∀ i, (i < BufferPoolManager.pool_size_ s)%nat →
        pin_count_ (BufferPoolManager.pages_ s (Z.of_nat i)) ≠ 0%N) →
  BufferPoolManager.free_list_ s = [] ∧
  LRUReplacer.LRUlist_ (BufferPoolManager.replacer_ s) = [].
Proof.
  intros [Hlru Hnd Htab Hfree Hel] Hpinned.
  assert (Hno : ∀ f, frame_in_range s f →
                     pin_count_ (BufferPoolManager.pages_ s f) = 0%N → False).
  { intros f Hrange Hz. unfold frame_in_range in Hrange.
    apply (Hpinned (Z.to_nat f)); [lia|]. by rewrite Z2Nat.id by lia. }
  split.
  - destruct (BufferPoolManager.free_list_ s) as [|f fl]; [done|].
    destruct (Hfree f) as [Hz Hrange]; [by left|]. by destruct (Hno f).
  - destruct (LRUReplacer.LRUlist_ (BufferPoolManager.replacer_ s)) as [|f l]; [done|].
    destruct (Hel f) as [Hz Hrange]; [by left|]. by destruct (Hno f).
Qed.

Lemma exhausted_calls_fail s id :
  BufferPoolManager.free_list_ s = [] →
  LRUReplacer.LRUlist_ (BufferPoolManager.replacer_ s) = [] →
  (BufferPoolManager.page_table_ s !! id = None →
     BufferPoolManager.fetch_page s id = (None, s)) ∧
  BufferPoolManager.new_page s id = (None, id, s).
Proof.
  intros Hfl Hl.
  assert (Hfv : BufferPoolManager.find_victim_page s = (false, INVALID_FRAME_ID, s)).
  { destruct (find_victim_page_cases s)
      as [(? & ? & Hfl' & _)|[(_ & _ & Heq)|(l & x & _ & Hl' & _)]].
    - by rewrite Hfl in Hfl'.
    - done.
    - rewrite Hl in Hl'. by destruct l. }
  split.
  - intros Hpt. by apply (fetch_page_exhausted s id INVALID_FRAME_ID).
  - by apply (new_page_exhausted s id INVALID_FRAME_ID).
Qed.

End monotone.

(** ** Pool exhaustion *)

(** Claim C7.  With an empty free list and no eligible frame,
    [fetch_page] of a page that is not resident and [new_page] both return
    [nullptr] and the whole state, the disk manager and its page counters
    included, is as it was; [*page_id] is not written.  This is the case in
    every state reached from a new pool of [n] frames in which all [n]
    frames have a pin count above 0. *)
Theorem pool_exhausted_no_mutation :
  (∀ s page_id,
     BufferPoolManager.free_list_ s = [] →
     LRUReplacer.LRUlist_ (BufferPoolManager.replacer_ s) = [] →
     (BufferPoolManager.page_table_ s !! page_id = None →
        BufferPoolManager.fetch_page s page_id = (None, s)) ∧
     BufferPoolManager.new_page s page_id = (None, page_id, s)) ∧
  (∀ n d cs page_id,
     let s := run_calls (BufferPoolManager.new n d) cs in
     (∀ i, (i < n)%nat →
           pin_count_ (BufferPoolManager.pages_ s (Z.of_nat i)) ≠ 0%N) →
     (BufferPoolManager.page_table_ s !! page_id = None →
        BufferPoolManager.fetch_page s page_id = (None, s)) ∧
     BufferPoolManager.new_page s page_id = (None, page_id, s)).
Proof.
  split.
  - intros s page_id. apply exhausted_calls_fail.
  - intros n d cs page_id s Hpinned.
    assert (Hinv : pool_inv s) by apply pool_inv_run_calls, pool_inv_new.
    assert (Hn : BufferPoolManager.pool_size_ s = n)
      by apply (run_calls_pool_size cs _ (pool_inv_new n d)).
    destruct (all_pinned_exhausted s Hinv) as [Hfl Hl]; [by rewrite Hn|].
    by apply exhausted_calls_fail.
Qed.

(** Two frames, two pinned pages: a third page cannot be brought in. *)
Lemma pool_exhausted_no_mutation_witness :
  let s := run_calls (BufferPoolManager.new 2 DiskManager.empty)
             [CallFetch (mkPageId 1 0); CallNew (mkPageId 2 0)] in
  pin_count_ (BufferPoolManager.pages_ s 0%Z) = 1%N ∧
  pin_count_ (BufferPoolManager.pages_ s 1%Z) = 1%N ∧
  BufferPoolManager.fetch_page s (mkPageId 1 5) = (None, s) ∧
  BufferPoolManager.new_page s (mkPageId 1 5) = (None, mkPageId 1 5, s).
Proof.
  intros s. split; [reflexivity|]. split; [reflexivity|].
  destruct pool_exhausted_no_mutation as [_ Hreach].
  destruct (Hreach 2%nat DiskManager.empty
              [CallFetch (mkPageId 1 0); CallNew (mkPageId 2 0)] (mkPageId 1 5))
    as [Hfetch Hnew].
  - intros i Hi. destruct i as [|[|i]]; [vm_compute; discriminate ..| lia].
  - split; [apply Hfetch; reflexivity | exact Hnew].
Defined.

(** ** LRU order *)

Section lru_order.
Implicit Types (s : BufferPoolManager.t) (f g : Z) (id : PageId).

(** Releasing the last pin of a resident page puts its frame at the
    front of the replacer's list. *)
Lemma unpin_page_last_pin s id is_dirty f :
  pool_inv s →
  BufferPoolManager.page_table_ s !! id = Some f →
  pin_count_ (BufferPoolManager.pages_ s f) = 1%N →
  ∃ s', BufferPoolManager.unpin_page s id is_dirty = (true, s') ∧
    pool_inv s' ∧
    LRUReplacer.LRUlist_ (BufferPoolManager.replacer_ s')
    = f :: LRUReplacer.LRUlist_ (BufferPoolManager.replacer_ s) ∧
    BufferPoolManager.page_table_ s' = BufferPoolManager.page_table_ s ∧
    BufferPoolManager.free_list_ s' = BufferPoolManager.free_list_ s ∧
    (∀ g, g ≠ f → BufferPoolManager.pages_ s' g = BufferPoolManager.pages_ s g).
Proof.
  intros Hinv Hpt Hone.
  pose proof (pool_inv_unpin_page s id is_dirty Hinv) as Hinv'.
  destruct (unpin_page_success s id is_dirty f Hpt)
    as (s' & Hrun & Hpin & Hrep & _ & _ & _ & Hoth & Htab & Hfl & _); [lia|].
  rewrite Hrun in Hinv'. exists s'. split_and!; try done.
  rewrite Hrep, decide_True by lia. apply unpin_list_fresh.
  destruct Hinv as [[_ Hco] _ _ _ Hel]. rewrite Hco. intros Hf.
  destruct (Hel f Hf) as [Hz _]. lia.
Qed.



End lru_order.




(** ** The three-state partition of the frames *)

Section partition.
Implicit Types (s : BufferPoolManager.t) (f g : Z) (id : PageId).

(** The partition says that no in-range frame is both in the free list
    and in the replacer's list. *)
Lemma partitioned_alt s :
  partitioned s ↔
  ∀ f, frame_in_range s f → f ∈ BufferPoolManager.free_list_ s →
       f ∈ LRUReplacer.LRUlist_ (BufferPoolManager.replacer_ s) → False.
Proof.
  unfold partitioned, exactly_one, frame_free, frame_eligible, frame_pinned_or_unknown.
  split.
  - intros Hp f Hrange Hfree Hel. destruct (Hp f Hrange); naive_solver.
  - intros Hdisj f Hrange.
    destruct (decide (f ∈ BufferPoolManager.free_list_ s)) as [Hfree|Hfree];
      destruct (decide (f ∈ LRUReplacer.LRUlist_ (BufferPoolManager.replacer_ s)))
        as [Hel|Hel]; naive_solver.
Qed.

Lemma partitioned_check_spec s : partitioned_check s = true ↔ partitioned s.
Proof.
  rewrite partitioned_alt. unfold partitioned_check, frame_in_range.
  rewrite forallb_forall. split.
  - intros Hall f Hrange Hf He.
    specialize (Hall (Z.to_nat f)). rewrite Z2Nat.id in Hall by lia.
    rewrite !bool_decide_eq_true_2 in Hall by done.
    discriminate Hall. apply in_seq. lia.
  - intros Hdisj i Hi%in_seq. apply negb_true_iff, andb_false_iff.
    destruct (decide (Z.of_nat i ∈ BufferPoolManager.free_list_ s)) as [Hf|Hf];
      [|left; by apply bool_decide_eq_false_2].
    right. apply bool_decide_eq_false_2. intros He. apply (Hdisj (Z.of_nat i)); [lia|done..].
Qed.

Lemma partitioned_shrink s s' :
  partitioned s →
  BufferPoolManager.pool_size_ s' = BufferPoolManager.pool_size_ s →
  (∀ g, g ∈ BufferPoolManager.free_list_ s' → g ∈ BufferPoolManager.free_list_ s) →
  (∀ g, g ∈ LRUReplacer.LRUlist_ (BufferPoolManager.replacer_ s') →
        g ∈ LRUReplacer.LRUlist_ (BufferPoolManager.replacer_ s)) →
  partitioned s'.
Proof.
  rewrite !partitioned_alt. unfold frame_in_range. intros Hp Hn Hfl Hl f Hrange Hf He.
  rewrite Hn in Hrange. by apply (Hp f Hrange); [apply Hfl | apply Hl].
Qed.

Lemma delete_page_success s id f :
  BufferPoolManager.page_table_ s !! id = Some f →
  pin_count_ (BufferPoolManager.pages_ s f) = 0%N →
  ∃ s', BufferPoolManager.delete_page s id = (true, s') ∧
        BufferPoolManager.replacer_ s' = BufferPoolManager.replacer_ s ∧
        BufferPoolManager.free_list_ s' = BufferPoolManager.free_list_ s ++ [f] ∧
        BufferPoolManager.pool_size_ s' = BufferPoolManager.pool_size_ s.
Proof.
  intros Hf Hz. unfold BufferPoolManager.delete_page. rewrite Hf, Hz. simpl.
  eexists; split; [reflexivity|]. by simpl.
Qed.

Lemma delete_page_refused s id :
  (¬ ∃ f, BufferPoolManager.page_table_ s !! id = Some f ∧
          pin_count_ (BufferPoolManager.pages_ s f) = 0%N) →
  (BufferPoolManager.delete_page s id).2 = s.
Proof.
  intros Hno. unfold BufferPoolManager.delete_page.
  destruct (BufferPoolManager.page_table_ s !! id) as [f|] eqn:Hpt; [|done].
  destruct (N.eqb_spec (pin_count_ (BufferPoolManager.pages_ s f)) 0) as [Hz|Hnz];
    [|done].
  destruct Hno. by exists f.
Qed.

Lemma partitioned_unpin_page s id is_dirty :
  pool_inv s → partitioned s →
  partitioned (BufferPoolManager.unpin_page s id is_dirty).2.
Proof.
  intros Hinv Hp.
  destruct (BufferPoolManager.page_table_ s !! id) as [f|] eqn:Hpt;
    [|unfold BufferPoolManager.unpin_page; by rewrite Hpt].
  destruct (decide (pin_count_ (BufferPoolManager.pages_ s f) = 0%N)) as [Hz|Hnz];
    [unfold BufferPoolManager.unpin_page; by rewrite Hpt, Hz|].
  destruct (unpin_page_success s id is_dirty f Hpt Hnz)
    as (s' & -> & _ & Hrep & _ & _ & _ & _ & _ & Hfl & _ & Hn).
  destruct (inv_table s Hinv id f Hpt) as (_ & Hnf & _).
  simpl. revert Hp. rewrite !partitioned_alt. unfold frame_in_range.
  rewrite Hn, Hfl, Hrep. intros Hp g Hrange Hg He.
  case_decide; [|by apply (Hp g)].
  apply unpin_elem_of in He as [->|He]; [done | by apply (Hp g)].
Qed.

Lemma partitioned_delete_page s id :
  pool_inv s → partitioned s →
  (partitioned (BufferPoolManager.delete_page s id).2 ↔
   ¬ ∃ f, BufferPoolManager.page_table_ s !! id = Some f ∧
          pin_count_ (BufferPoolManager.pages_ s f) = 0%N ∧
          f ∈ LRUReplacer.LRUlist_ (BufferPoolManager.replacer_ s)).
Proof.
  intros Hinv Hp. split.
  - intros Hp' (f & Hpt & Hz & He).
    destruct (delete_page_success s id f Hpt Hz) as (s' & Hrun & Hr & Hfl & Hn).
    rewrite Hrun in Hp'. simpl in Hp'. rewrite partitioned_alt in Hp'.
    destruct (inv_table s Hinv id f Hpt) as (_ & _ & Hrange).
    apply (Hp' f).
    + unfold frame_in_range in *. by rewrite Hn.
    + rewrite Hfl. set_solver.
    + by rewrite Hr.
  - intros Hno.
    destruct (BufferPoolManager.page_table_ s !! id) as [f|] eqn:Hpt;
      [|by rewrite delete_page_refused by (rewrite Hpt; naive_solver)].
    destruct (decide (pin_count_ (BufferPoolManager.pages_ s f) = 0%N)) as [Hz|Hnz];
      [|by rewrite delete_page_refused by (rewrite Hpt; naive_solver)].
    destruct (delete_page_success s id f Hpt Hz) as (s' & -> & Hr & Hfl & Hn).
    simpl. revert Hp. rewrite !partitioned_alt. unfold frame_in_range.
    rewrite Hn, Hfl, Hr. intros Hp g Hrange Hg He.
    apply elem_of_app in Hg as [Hg|Hg]; [by apply (Hp g)|].
    apply list_elem_of_singleton in Hg as ->. apply Hno. by exists f.
Qed.

(** A frame that [delete_page] left both free and eligible is never
    handed out by the replacer: [find_victim_page] asks the replacer only
    when the free list is empty, and the fetch that takes the frame from
    the free list calls [pin], which drops the entry. *)
Lemma free_frame_reuse_drops_entry s id f rest :
  pool_inv s →
  BufferPoolManager.free_list_ s = f :: rest →
  BufferPoolManager.page_table_ s !! id = None →
  ∃ s', BufferPoolManager.fetch_page s id = (Some f, s') ∧
        f ∉ LRUReplacer.LRUlist_ (BufferPoolManager.replacer_ s') ∧
        f ∉ BufferPoolManager.free_list_ s'.
Proof.
  intros Hinv Hfl Hpt.
  assert (Hfv : BufferPoolManager.find_victim_page s
                = (true, f, BufferPoolManager.with_free_list s rest)).
  { unfold BufferPoolManager.find_victim_page. by rewrite Hfl. }
  destruct (fetch_page_miss s id f _ Hpt Hfv)
    as (s' & Hrun & _ & _ & _ & _ & _ & Hfl' & Hr & _).
  simpl in Hfl', Hr. exists s'. split_and!; [done| |].
  - rewrite Hr, (pin_list _ f (inv_lru s Hinv)), list_elem_of_filter. naive_solver.
  - rewrite Hfl'. pose proof (inv_free_nodup s Hinv) as Hnd.
    rewrite Hfl in Hnd. by apply NoDup_cons in Hnd as [? _].
Qed.

End partition.

(** Claim C2, as stated, fails: after [fetch_page] and [unpin_page] of one
    page in a pool of one frame the partition holds, and [delete_page] of
    that page leaves frame 0 both in the free list and eligible. *)
Lemma delete_page_breaks_partition :
  let A := mkPageId 1 0 in
  let s2 := run_calls (BufferPoolManager.new 1 DiskManager.empty)
              [CallFetch A; CallUnpin A false] in
  partitioned s2 ∧
  frame_in_range (run_call s2 (CallDelete A)) 0%Z ∧
  frame_free (run_call s2 (CallDelete A)) 0%Z ∧
  frame_eligible (run_call s2 (CallDelete A)) 0%Z ∧
  ¬ partitioned (run_call s2 (CallDelete A)).
Proof.
  intros A s2.
  assert (Hrange : frame_in_range (run_call s2 (CallDelete A)) 0%Z) by (by vm_compute).
  assert (Hfree : frame_free (run_call s2 (CallDelete A)) 0%Z).
  { unfold frame_free.
    change (BufferPoolManager.free_list_ (run_call s2 (CallDelete A))) with [0%Z].
    by left. }
  assert (Hel : frame_eligible (run_call s2 (CallDelete A)) 0%Z).
  { unfold frame_eligible.
    change (LRUReplacer.LRUlist_
              (BufferPoolManager.replacer_ (run_call s2 (CallDelete A)))) with [0%Z].
    by left. }
  split_and!; try done.
  - by apply partitioned_check_spec.
  - rewrite partitioned_alt. intros Hp. by apply (Hp 0%Z).
Qed.

(** Claim C2, amended.  From a state that satisfies the pool invariant and
    the partition, [fetch_page], [new_page], [unpin_page], [flush_page]
    and [flush_all_pages] lead to a state that satisfies both again.
    [delete_page] keeps the pool invariant, and keeps the partition
    exactly when it does not free a frame that is eligible, that is,
    unless the page is resident with pin count 0 and its frame is in the
    replacer's list. *)
Theorem partition_preserved (s : BufferPoolManager.t) :
  pool_inv s → partitioned s →
  (∀ id, pool_inv (BufferPoolManager.fetch_page s id).2 ∧
         partitioned (BufferPoolManager.fetch_page s id).2) ∧
  (∀ id, pool_inv (BufferPoolManager.new_page s id).2 ∧
         partitioned (BufferPoolManager.new_page s id).2) ∧
  (∀ id is_dirty, pool_inv (BufferPoolManager.unpin_page s id is_dirty).2 ∧
                  partitioned (BufferPoolManager.unpin_page s id is_dirty).2) ∧
  (∀ id, pool_inv (BufferPoolManager.flush_page s id).2 ∧
         partitioned (BufferPoolManager.flush_page s id).2) ∧
  (∀ file, pool_inv (BufferPoolManager.flush_all_pages s file) ∧
           partitioned (BufferPoolManager.flush_all_pages s file)) ∧
  (∀ id, pool_inv (BufferPoolManager.delete_page s id).2 ∧
         (partitioned (BufferPoolManager.delete_page s id).2 ↔
          ¬ ∃ f, BufferPoolManager.page_table_ s !! id = Some f ∧
                 pin_count_ (BufferPoolManager.pages_ s f) = 0%N ∧
                 f ∈ LRUReplacer.LRUlist_ (BufferPoolManager.replacer_ s))).
Proof.
  intros Hinv Hp. split_and!.
  - intros id. split; [by apply pool_inv_fetch_page|].
    destruct (fetch_page_shrinks s id Hinv) as (Hn & Hfl & Hl).
    by apply (partitioned_shrink s).
  - intros id. split; [by apply pool_inv_new_page|].
    destruct (new_page_shrinks s id Hinv) as (Hn & Hfl & Hl).
    by apply (partitioned_shrink s).
  - intros id is_dirty. split;
      [by apply pool_inv_unpin_page | by apply partitioned_unpin_page].
  - intros id. split; [by apply pool_inv_flush_page|].
    apply (partitioned_shrink s); [done|apply flush_page_pool_size|..];
      unfold BufferPoolManager.flush_page;
      by destruct (BufferPoolManager.page_table_ s !! id).
  - intros file. split; [by apply pool_inv_flush_all_pages|].
    unfold BufferPoolManager.flush_all_pages.
    destruct (flush_frames_meta file (seq 0 (BufferPoolManager.pool_size_ s)) s)
      as (_ & Hfl & Hr & Hn & _).
    apply (partitioned_shrink s); [done|done|..]; by rewrite ?Hfl, ?Hr.
  - intros id. split;
      [by apply pool_inv_delete_page | by apply partitioned_delete_page].
Qed.

(** Frame 0 holds an eligible page and frame 1 is free: a fetch of another
    page and a delete of a page that is not resident keep the partition. *)
Lemma partition_preserved_witness :
  let A := mkPageId 1 0 in
  let B := mkPageId 1 1 in
  let s := run_calls (BufferPoolManager.new 2 DiskManager.empty)
             [CallFetch A; CallUnpin A false] in
  partitioned (BufferPoolManager.fetch_page s B).2 ∧
  partitioned (BufferPoolManager.unpin_page s A true).2 ∧
  partitioned (BufferPoolManager.delete_page s B).2.
Proof.
  intros A B s.
  assert (Hinv : pool_inv s) by apply pool_inv_run_calls, pool_inv_new.
  assert (Hp : partitioned s) by (by apply partitioned_check_spec).
  destruct (partition_preserved s Hinv Hp) as (Hfetch & _ & Hunpin & _ & _ & Hdel).
  split_and!.
  - apply Hfetch.
  - apply Hunpin.
  - apply Hdel. intros (f & Hpt & _). discriminate Hpt.
Defined.

(** ** Write-back before reuse *)

Section writeback.
Implicit Types (s : BufferPoolManager.t) (f g : Z) (id : PageId).

(** [find_victim_page] touches neither the frames, nor the page table,
    nor the disk. *)
Lemma find_victim_page_frames s ok f s1 :
  BufferPoolManager.find_victim_page s = (ok, f, s1) →
  BufferPoolManager.pages_ s1 = BufferPoolManager.pages_ s ∧
  BufferPoolManager.page_table_ s1 = BufferPoolManager.page_table_ s ∧
  BufferPoolManager.disk_manager_ s1 = BufferPoolManager.disk_manager_ s.
Proof.
  intros Hfv.
  destruct (find_victim_page_cases s)
    as [(? & ? & _ & Heq)|[(_ & _ & Heq)|(? & ? & _ & _ & Heq)]];
    rewrite Heq in Hfv; by simplify_eq.
Qed.

Lemma fetch_page_miss_writeback s id f s1 :
  BufferPoolManager.page_table_ s !! id = None →
  BufferPoolManager.find_victim_page s = (true, f, s1) →
  is_dirty_ (BufferPoolManager.pages_ s f) = true →
  ∃ s', BufferPoolManager.fetch_page s id = (Some f, s') ∧
    DiskManager.store (BufferPoolManager.disk_manager_ s')
      !! id_ (BufferPoolManager.pages_ s f)
    = Some (data_ (BufferPoolManager.pages_ s f)) ∧
    id_ (BufferPoolManager.pages_ s' f) = id ∧
    is_dirty_ (BufferPoolManager.pages_ s' f) = false.
Proof.
  intros Hpt Hfv Hd.
  destruct (find_victim_page_frames s true f s1 Hfv) as (Hpages & _ & Hdisk).
  destruct (fetch_page_miss s id f s1 Hpt Hfv)
    as (s' & Hrun & Hid & Hclean & _ & _ & _ & _ & _ & _ & Hstore).
  exists s'. split_and!; try done.
  rewrite Hstore, update_page_disk, Hpages, Hd, Hdisk. simpl.
  rewrite PageId_eta. apply lookup_insert_eq.
Qed.

Lemma new_page_writeback s id f s1 :
  BufferPoolManager.find_victim_page s = (true, f, s1) →
  is_dirty_ (BufferPoolManager.pages_ s f) = true →
  ∃ id' s', BufferPoolManager.new_page s id = (Some f, id', s') ∧
    DiskManager.store (BufferPoolManager.disk_manager_ s')
      !! id_ (BufferPoolManager.pages_ s f)
    = Some (data_ (BufferPoolManager.pages_ s f)) ∧
    BufferPoolManager.pages_ s' f = mkPage id' (replicate PAGE_SIZE x00) false 1.
Proof.
  intros Hfv Hd.
  destruct (find_victim_page_frames s true f s1 Hfv) as (Hpages & _ & Hdisk).
  destruct (new_page_success s id f s1 Hfv)
    as (s' & Hrun & Hfr & _ & _ & _ & _ & _ & Hdisk').
  eexists _, s'. split_and!; try done.
  rewrite Hdisk', update_page_disk. simpl. rewrite Hpages, Hd. simpl.
  rewrite PageId_eta. apply lookup_insert_eq.
Qed.

End writeback.

(** Claim C5.  [update_page] on a dirty frame first writes the buffer the
    frame had on entry to the slot of the identity it had on entry (one
    [write_page], no other slot changes) and then hands the frame over
    with the new identity, a zeroed buffer and a clear dirty flag; on a
    clean frame it does not touch the disk.  Hence after a [fetch_page]
    miss or a [new_page] that took a dirty frame, the disk holds at the
    frame's old identity the buffer the frame had when it was taken. *)
Theorem writeback_before_reuse :
  (∀ s page new_page_id,
     let old := BufferPoolManager.pages_ s page in
     let s' := BufferPoolManager.update_page s page new_page_id page in
     (is_dirty_ old = true →
        DiskManager.trace (BufferPoolManager.disk_manager_ s')
        = DiskManager.EvWrite (id_ old) (data_ old)
            :: DiskManager.trace (BufferPoolManager.disk_manager_ s) ∧
        DiskManager.store (BufferPoolManager.disk_manager_ s') !! id_ old
        = Some (data_ old) ∧
        (∀ i, i ≠ id_ old →
           DiskManager.store (BufferPoolManager.disk_manager_ s') !! i
           = DiskManager.store (BufferPoolManager.disk_manager_ s) !! i)) ∧
     (is_dirty_ old = false →
        BufferPoolManager.disk_manager_ s' = BufferPoolManager.disk_manager_ s) ∧
     BufferPoolManager.pages_ s' page
     = mkPage new_page_id (replicate PAGE_SIZE x00) false 0) ∧
  (∀ s id f s1,
     BufferPoolManager.page_table_ s !! id = None →
     BufferPoolManager.find_victim_page s = (true, f, s1) →
     is_dirty_ (BufferPoolManager.pages_ s f) = true →
     ∃ s', BufferPoolManager.fetch_page s id = (Some f, s') ∧
       DiskManager.store (BufferPoolManager.disk_manager_ s')
         !! id_ (BufferPoolManager.pages_ s f)
       = Some (data_ (BufferPoolManager.pages_ s f)) ∧
       id_ (BufferPoolManager.pages_ s' f) = id ∧
       is_dirty_ (BufferPoolManager.pages_ s' f) = false) ∧
  (∀ s id f s1,
     BufferPoolManager.find_victim_page s = (true, f, s1) →
     is_dirty_ (BufferPoolManager.pages_ s f) = true →
     ∃ id' s', BufferPoolManager.new_page s id = (Some f, id', s') ∧
       DiskManager.store (BufferPoolManager.disk_manager_ s')
         !! id_ (BufferPoolManager.pages_ s f)
       = Some (data_ (BufferPoolManager.pages_ s f)) ∧
       BufferPoolManager.pages_ s' f = mkPage id' (replicate PAGE_SIZE x00) false 1).
Proof.
  split_and!.
  - intros s page new_page_id. apply update_page_writeback.
  - intros s id f s1. apply fetch_page_miss_writeback.
  - intros s id f s1. apply new_page_writeback.
Qed.

(** One frame: page A is fetched, its buffer is overwritten through the
    returned pointer, and it is unpinned dirty.  Fetching B evicts A, and
    the disk then holds the overwritten buffer at A. *)
Lemma writeback_before_reuse_witness :
  let A := mkPageId 1 0 in
  let B := mkPageId 1 1 in
  let s := run_calls (BufferPoolManager.new 1 DiskManager.empty)
             [CallFetch A; CallStore 0%Z (replicate PAGE_SIZE xaa); CallUnpin A true] in
  DiskManager.store (BufferPoolManager.disk_manager_ s) !! A = None ∧
  ∃ s', BufferPoolManager.fetch_page s B = (Some 0%Z, s') ∧
        DiskManager.store (BufferPoolManager.disk_manager_ s') !! A
        = Some (replicate PAGE_SIZE xaa) ∧
        id_ (BufferPoolManager.pages_ s' 0%Z) = B.
Proof.
  intros A B s. split; [reflexivity|].
  destruct writeback_before_reuse as (_ & Hfetch & _).
  destruct (Hfetch s B 0%Z
              (BufferPoolManager.with_replacer s
                 (LRUReplacer.mk 1 [] (LRUReplacer.LRUhash_ (BufferPoolManager.replacer_ s) ∖ {[0%Z]}))))
    as (s' & Hrun & Hstore & Hid & _); try reflexivity.
  exists s'. split_and!; assumption.
Defined.

(** * Further properties of the replacer *)

Section replacer_more.
Implicit Types (r : LRUReplacer.t) (f g : Z) (l : list Z).

Lemma replacer_eta r :
  LRUReplacer.mk (LRUReplacer.max_size_ r) (LRUReplacer.LRUlist_ r) (LRUReplacer.LRUhash_ r)
  = r.
Proof. by destruct r. Qed.

Lemma pin_absent r f : f ∉ LRUReplacer.LRUhash_ r → LRUReplacer.pin r f = r.
Proof. intros Hf. unfold LRUReplacer.pin. by rewrite decide_False. Qed.

Lemma list_erase_length f l : f ∈ l → S (length (list_erase f l)) = length l.
Proof.
  induction l as [|x l IH]; simpl; [by intros ?%elem_of_nil|].
  intros Hf. case_decide as Hx; [done|]. simpl. f_equal. apply IH.
  apply elem_of_cons in Hf as [->|Hf]; done.
Qed.

Lemma unpin_all_list fs r :
  lru_wf r → NoDup fs →
  (∀ f, f ∈ fs → f ∉ LRUReplacer.LRUlist_ r) →
  LRUReplacer.LRUlist_ (unpin_all r fs) = reverse fs ++ LRUReplacer.LRUlist_ r.
Proof.
  revert r. induction fs as [|f fs IH]; intros r Hwf Hnd Hfresh; [done|].
  apply NoDup_cons in Hnd as [Hf Hnd].
  change (unpin_all r (f :: fs)) with (unpin_all (LRUReplacer.unpin r f) fs).
  assert (Hl : LRUReplacer.LRUlist_ (LRUReplacer.unpin r f) = f :: LRUReplacer.LRUlist_ r).
  { apply unpin_list_fresh. rewrite (proj2 Hwf). apply Hfresh. by left. }
  rewrite IH; [|by apply lru_wf_unpin|done|].
  - rewrite Hl, reverse_cons, <- app_assoc. done.
  - intros g Hg. rewrite Hl. apply not_elem_of_cons. split; [by intros ->|].
    apply Hfresh. by right.
Qed.

Lemma victims_drain l : ∀ n r,
  LRUReplacer.LRUlist_ r = l → (length l ≤ n)%nat →
  (victims n r).1 = reverse l ∧ LRUReplacer.LRUlist_ (victims n r).2 = [].
Proof.
  induction l as [|x l IH] using rev_ind; intros n r Hl Hn.
  - destruct n as [|n]; simpl; [done|]. by rewrite (victim_empty r Hl).
  - rewrite length_app in Hn. simpl in Hn. destruct n as [|n]; [lia|].
    simpl. rewrite (victim_snoc r l x Hl).
    destruct (IH n (LRUReplacer.mk (LRUReplacer.max_size_ r) l
                      (LRUReplacer.LRUhash_ r ∖ {[x]}))) as [Hfs Hrest];
      [done|lia|].
    destruct (victims n _) as [fs r'']. simpl in *.
    by rewrite reverse_snoc, Hfs.
Qed.

End replacer_more.

(** Property X1.  The three operations of the replacer keep its list and
    its index in step: from a replacer whose list has no repetition and
    whose index holds exactly the frames of the list, [pin], [unpin] and
    [victim] lead to such a replacer again. *)
Theorem replacer_coherence_kept (r : LRUReplacer.t) (f : frame_id_t) :
  lru_wf r →
  lru_wf (LRUReplacer.pin r f) ∧
  lru_wf (LRUReplacer.unpin r f) ∧
  lru_wf (LRUReplacer.victim r).2.
Proof.
  intros Hwf. split_and!.
  - by apply lru_wf_pin.
  - by apply lru_wf_unpin.
  - by apply lru_wf_victim.
Qed.

Lemma replacer_coherence_kept_witness :
  let r := unpin_all (LRUReplacer.new 4) [2; 0; 1]%Z in
  lru_wf (LRUReplacer.pin r 0%Z) ∧
  lru_wf (LRUReplacer.unpin r 0%Z) ∧
  lru_wf (LRUReplacer.victim r).2.
Proof.
  intros r. apply (replacer_coherence_kept r 0%Z).
  apply (unpin_all_wf [2; 0; 1]%Z), lru_wf_new.
Defined.

(** Property X2.  [unpin] and [pin] are idempotent: a second [unpin] of the
    same frame, or a second [pin] of it, changes nothing. *)
Theorem unpin_pin_idempotent (r : LRUReplacer.t) (f : frame_id_t) :
  LRUReplacer.unpin (LRUReplacer.unpin r f) f = LRUReplacer.unpin r f ∧
  LRUReplacer.pin (LRUReplacer.pin r f) f = LRUReplacer.pin r f.
Proof.
  split.
  - apply unpin_list_present. rewrite unpin_hash. set_solver.
  - apply pin_absent. unfold LRUReplacer.pin. case_decide; simpl; set_solver.
Qed.

(** Property X3.  [pin] undoes [unpin]: for a frame that the replacer does
    not know, [unpin] followed by [pin] gives back the replacer that was
    there before.  In the other order, with a coherent replacer, [pin]
    followed by [unpin] leaves the frame at the front of the list and the
    other frames in their order, whether or not the frame was there. *)
Theorem pin_unpin_round_trip (r : LRUReplacer.t) (f : frame_id_t) :
  (f ∉ LRUReplacer.LRUhash_ r →
     LRUReplacer.pin (LRUReplacer.unpin r f) f = r) ∧
  (lru_wf r →
     LRUReplacer.LRUlist_ (LRUReplacer.unpin (LRUReplacer.pin r f) f)
     = f :: filter (λ g, g ≠ f) (LRUReplacer.LRUlist_ r)).
Proof.
  split.
  - intros Hf. unfold LRUReplacer.unpin. rewrite decide_True by done.
    unfold LRUReplacer.pin. simpl. rewrite decide_True by set_solver. simpl.
    rewrite decide_True by done.
    replace (({[f]} ∪ LRUReplacer.LRUhash_ r) ∖ {[f]}) with (LRUReplacer.LRUhash_ r)
      by set_solver.
    apply replacer_eta.
  - intros Hwf. pose proof (lru_wf_pin r f Hwf) as [_ Hco].
    rewrite unpin_list_fresh, (pin_list r f Hwf); [done|].
    rewrite Hco, (pin_list r f Hwf), list_elem_of_filter. naive_solver.
Qed.

Lemma pin_unpin_round_trip_witness :
  let r := unpin_all (LRUReplacer.new 4) [2; 0; 1]%Z in
  LRUReplacer.pin (LRUReplacer.unpin r 3%Z) 3%Z = r ∧
  LRUReplacer.LRUlist_ (LRUReplacer.unpin (LRUReplacer.pin r 2%Z) 2%Z) = [2; 1; 0]%Z.
Proof.
  intros r.
  destruct (pin_unpin_round_trip r 3%Z) as [Hundo _].
  destruct (pin_unpin_round_trip r 2%Z) as [_ Hfront].
  split.
  - apply Hundo. vm_compute. discriminate.
  - rewrite Hfront; [reflexivity|]. apply (unpin_all_wf [2; 0; 1]%Z), lru_wf_new.
Defined.

(** Property X4.  [Size] counts as the calls go: with a coherent replacer,
    [unpin] adds one exactly when the frame was not in the list, [pin]
    takes one away exactly when it was, and [victim] takes one away
    exactly when it returns [true]. *)
Theorem Size_accounting (r : LRUReplacer.t) (f : frame_id_t) :
  lru_wf r →
  LRUReplacer.Size (LRUReplacer.unpin r f)
  = (LRUReplacer.Size r
     + (if decide (f ∈ LRUReplacer.LRUlist_ r) then 0 else 1))%nat ∧
  (LRUReplacer.Size (LRUReplacer.pin r f)
   + (if decide (f ∈ LRUReplacer.LRUlist_ r) then 1 else 0))%nat
  = LRUReplacer.Size r ∧
  (LRUReplacer.Size (LRUReplacer.victim r).2
   + (if (LRUReplacer.victim r).1.1 then 1 else 0))%nat
  = LRUReplacer.Size r.
Proof.
  intros [Hnd Hco]. unfold LRUReplacer.Size. split_and!.
  - unfold LRUReplacer.unpin. case_decide as Hh; case_decide as Hl; simpl;
      rewrite ?Hco in Hh; try done; lia.
  - unfold LRUReplacer.pin. case_decide as Hh; case_decide as Hl; simpl;
      rewrite ?Hco in Hh; try done; try lia.
    rewrite <- (list_erase_length f _ Hl). lia.
  - destruct (victim_cases r) as [[Hl ->]|(l & x & Hl & ->)]; simpl.
    + lia.
    + rewrite Hl, length_app. simpl. lia.
Qed.

Lemma Size_accounting_witness :
  let r := unpin_all (LRUReplacer.new 4) [2; 0; 1]%Z in
  LRUReplacer.Size r = 3%nat ∧
  LRUReplacer.Size (LRUReplacer.unpin r 0%Z) = 3%nat ∧
  LRUReplacer.Size (LRUReplacer.unpin r 7%Z) = 4%nat ∧
  (LRUReplacer.Size (LRUReplacer.pin r 0%Z) + 1)%nat = 3%nat.
Proof.
  intros r.
  assert (Hwf : lru_wf r) by apply (unpin_all_wf [2; 0; 1]%Z), lru_wf_new.
  destruct (Size_accounting r 0%Z Hwf) as (Hu0 & Hp0 & _).
  destruct (Size_accounting r 7%Z Hwf) as (Hu7 & _ & _).
  split; [reflexivity|]. split_and!.
  - rewrite Hu0. reflexivity.
  - rewrite Hu7. reflexivity.
  - exact Hp0.
Defined.

(** Property X5.  The replacer is a queue: after a new replacer has seen
    [unpin] of pairwise distinct frames, [victim] hands them out in the
    order in which they were unpinned, as long as there are any, and then
    the list is empty. *)
Theorem victims_in_unpin_order (num_pages n : nat) (fs : list frame_id_t) :
  NoDup fs → (length fs ≤ n)%nat →
  (victims n (unpin_all (LRUReplacer.new num_pages) fs)).1 = fs ∧
  LRUReplacer.LRUlist_ (victims n (unpin_all (LRUReplacer.new num_pages) fs)).2 = [].
Proof.
  intros Hnd Hn.
  pose proof (unpin_all_list fs (LRUReplacer.new num_pages) (lru_wf_new num_pages) Hnd)
    as Hl.
  rewrite app_nil_r in Hl.
  destruct (victims_drain (reverse fs) n (unpin_all (LRUReplacer.new num_pages) fs))
    as [Hfs Hrest].
  - apply Hl. intros f _. apply not_elem_of_nil.
  - by rewrite length_reverse.
  - by rewrite reverse_involutive in Hfs.
Qed.

Lemma victims_in_unpin_order_witness :
  (victims 5 (unpin_all (LRUReplacer.new 2) [3; 1; 2]%Z)).1 = [3; 1; 2]%Z ∧
  LRUReplacer.LRUlist_ (victims 5 (unpin_all (LRUReplacer.new 2) [3; 1; 2]%Z)).2 = [].
Proof.
  apply (victims_in_unpin_order 2 5 [3; 1; 2]%Z).
  - apply (bool_decide_unpack (NoDup [3; 1; 2]%Z)). vm_compute. exact I.
  - simpl. lia.
Defined.

(** * Further properties of the buffer pool manager *)

(** Property X6.  Every call keeps the pool invariant: after any sequence
    of protocol calls and stores into frame buffers, the replacer is still
    coherent, the free list has no repetition, every page-table entry
    points at an in-range frame that carries that identity and is outside
    the free list, and every frame in the free list or in the replacer's
    list is in range and has pin count 0. *)
Theorem pool_invariant_kept (s : BufferPoolManager.t) (cs : list call) :
  pool_inv s → pool_inv (run_calls s cs).
Proof.
  revert s. induction cs as [|c cs IH]; intros s Hinv; [done|].
  change (run_calls s (c :: cs)) with (run_calls (run_call s c) cs).
  apply IH. by apply pool_inv_run_call.
Qed.

Lemma pool_invariant_kept_witness :
  pool_inv (run_calls (BufferPoolManager.new 2 DiskManager.empty)
              [CallFetch (mkPageId 1 0); CallNew (mkPageId 2 0);
               CallUnpin (mkPageId 1 0) true; CallDelete (mkPageId 1 0);
               CallFetch (mkPageId 1 4); CallFlushAll 1]).
Proof. apply pool_invariant_kept, pool_inv_new. Defined.

(** Property X7.  [find_victim_page] never hands out a frame in use: in a
    state that satisfies the pool invariant the frame it returns is in
    range and has pin count 0, and it is no longer in the free list.  The
    frames, the page table and the disk are not touched.  While the free
    list is not empty the frame is its front and the replacer is left
    alone; otherwise the frame is the back of the replacer's list. *)
Theorem find_victim_page_spec (s : BufferPoolManager.t) (f : frame_id_t)
    (s1 : BufferPoolManager.t) :
  pool_inv s →
  BufferPoolManager.find_victim_page s = (true, f, s1) →
  pin_count_ (BufferPoolManager.pages_ s f) = 0%N ∧
  frame_in_range s f ∧
  (f ∉ BufferPoolManager.free_list_ s1) ∧
  BufferPoolManager.pages_ s1 = BufferPoolManager.pages_ s ∧
  BufferPoolManager.page_table_ s1 = BufferPoolManager.page_table_ s ∧
  BufferPoolManager.disk_manager_ s1 = BufferPoolManager.disk_manager_ s ∧
  (BufferPoolManager.free_list_ s ≠ [] →
     BufferPoolManager.free_list_ s = f :: BufferPoolManager.free_list_ s1 ∧
     BufferPoolManager.replacer_ s1 = BufferPoolManager.replacer_ s) ∧
  (BufferPoolManager.free_list_ s = [] →
     BufferPoolManager.free_list_ s1 = [] ∧
     last (LRUReplacer.LRUlist_ (BufferPoolManager.replacer_ s)) = Some f ∧
     (f ∉ LRUReplacer.LRUlist_ (BufferPoolManager.replacer_ s1))).
Proof.
  intros Hinv Hfv.
  destruct (find_victim_page_cases s)
    as [(f' & rest & Hfl & Heq)|[(_ & _ & Heq)|(l & x & Hfl & Hl & Heq)]];
    rewrite Heq in Hfv; simplify_eq; simpl.
  - destruct (inv_free s Hinv f) as [Hz Hrange]; [rewrite Hfl; by left|].
    pose proof (inv_free_nodup s Hinv) as Hnd. rewrite Hfl in Hnd.
    apply NoDup_cons in Hnd as [Hf _].
    split_and!; try done. by rewrite Hfl.
  - destruct (inv_eligible s Hinv f) as [Hz Hrange]; [rewrite Hl; set_solver|].
    destruct (inv_lru s Hinv) as [Hnd _]. rewrite Hl in Hnd.
    apply NoDup_app in Hnd as (_ & Hdisj & _).
    split_and!; try done.
    + rewrite Hfl. apply not_elem_of_nil.
    + intros _. split_and!; [done | by rewrite Hl, last_snoc |].
      intros Hf. apply (Hdisj f Hf). by left.
Qed.

Lemma find_victim_page_spec_witness :
  let s := run_calls (BufferPoolManager.new 2 DiskManager.empty)
             [CallFetch (mkPageId 1 0); CallFetch (mkPageId 1 1);
              CallUnpin (mkPageId 1 1) false] in
  (BufferPoolManager.find_victim_page s).1 = (true, 1%Z) ∧
  pin_count_ (BufferPoolManager.pages_ s 1%Z) = 0%N ∧
  pin_count_ (BufferPoolManager.pages_ s 0%Z) = 1%N.
Proof.
  intros s.
  destruct (find_victim_page_spec s 1%Z
              (BufferPoolManager.with_replacer s
                 (LRUReplacer.mk 2 []
                    (LRUReplacer.LRUhash_ (BufferPoolManager.replacer_ s) ∖ {[1%Z]}))))
    as (Hz & _); [apply pool_inv_run_calls, pool_inv_new | reflexivity |].
  split; [reflexivity|]. split; [exact Hz | reflexivity].
Defined.

(** Property X8.  [fetch_page] and [new_page] fail only on exhaustion:
    [fetch_page] returns [nullptr] exactly when the page is not resident,
    the free list is empty and the replacer's list is empty, and
    [new_page] returns [nullptr] exactly when the free list and the
    replacer's list are both empty. *)
Theorem failure_iff_exhausted (s : BufferPoolManager.t) (page_id : PageId) :
  ((BufferPoolManager.fetch_page s page_id).1 = None ↔
   BufferPoolManager.page_table_ s !! page_id = None ∧
   BufferPoolManager.free_list_ s = [] ∧
   LRUReplacer.LRUlist_ (BufferPoolManager.replacer_ s) = []) ∧
  ((BufferPoolManager.new_page s page_id).1.1 = None ↔
   BufferPoolManager.free_list_ s = [] ∧
   LRUReplacer.LRUlist_ (BufferPoolManager.replacer_ s) = []).
Proof.
  split; split.
  - intros Hnone.
    destruct (BufferPoolManager.page_table_ s !! page_id) as [f|] eqn:Hpt.
    { unfold BufferPoolManager.fetch_page in Hnone. by rewrite Hpt in Hnone. }
    destruct (find_victim_page_cases s)
      as [(f & rest & _ & Hfv)|[(Hfl & Hl & _)|(l & x & _ & _ & Hfv)]]; [|done|].
    + destruct (fetch_page_miss s page_id f _ Hpt Hfv) as (s' & Hrun & _).
      by rewrite Hrun in Hnone.
    + destruct (fetch_page_miss s page_id x _ Hpt Hfv) as (s' & Hrun & _).
      by rewrite Hrun in Hnone.
  - intros (Hpt & Hfl & Hl).
    destruct (exhausted_calls_fail s page_id Hfl Hl) as [Hfetch _].
    by rewrite Hfetch.
  - intros Hnone.
    destruct (find_victim_page_cases s)
      as [(f & rest & _ & Hfv)|[(Hfl & Hl & _)|(l & x & _ & _ & Hfv)]]; [|done|].
    + destruct (new_page_success s page_id f _ Hfv) as (s' & Hrun & _).
      by rewrite Hrun in Hnone.
    + destruct (new_page_success s page_id x _ Hfv) as (s' & Hrun & _).
      by rewrite Hrun in Hnone.
  - intros (Hfl & Hl).
    destruct (exhausted_calls_fail s page_id Hfl Hl) as [_ Hnew].
    by rewrite Hnew.
Qed.

Section manager_more.
Implicit Types (s : BufferPoolManager.t) (f g : Z) (id : PageId).

Lemma Page_eq (p q : Page) :
  id_ p = id_ q → data_ p = data_ q → is_dirty_ p = is_dirty_ q →
  pin_count_ p = pin_count_ q → p = q.
Proof. destruct p, q; simpl; by intros -> -> -> ->. Qed.

Lemma fetch_page_hit s id f :
  BufferPoolManager.page_table_ s !! id = Some f →
  BufferPoolManager.fetch_page s id
  = (Some f,
     BufferPoolManager.upd_page
       (BufferPoolManager.with_replacer s
          (LRUReplacer.pin (BufferPoolManager.replacer_ s) f))
       f (λ p, set_pin_count p (N.succ (pin_count_ p)))).
Proof. intros Hpt. unfold BufferPoolManager.fetch_page. by rewrite Hpt. Qed.

(** A frame with a pin count above 0 is neither free nor eligible. *)
Lemma pinned_frame_unknown s f :
  pool_inv s → pin_count_ (BufferPoolManager.pages_ s f) ≠ 0%N →
  f ∉ BufferPoolManager.free_list_ s ∧
  f ∉ LRUReplacer.LRUlist_ (BufferPoolManager.replacer_ s) ∧
  f ∉ LRUReplacer.LRUhash_ (BufferPoolManager.replacer_ s).
Proof.
  intros Hinv Hpin. split_and!.
  - intros Hf. by destruct (inv_free s Hinv f Hf).
  - intros Hf. by destruct (inv_eligible s Hinv f Hf).
  - rewrite (proj2 (inv_lru s Hinv)). intros Hf. by destruct (inv_eligible s Hinv f Hf).
Qed.

Lemma victim_frame_unpinned s f s1 :
  pool_inv s →
  BufferPoolManager.find_victim_page s = (true, f, s1) →
  pin_count_ (BufferPoolManager.pages_ s f) = 0%N.
Proof.
  intros Hinv Hfv.
  destruct (find_victim_page_cases s)
    as [(f' & rest & Hfl & Heq)|[(_ & _ & Heq)|(l & x & Hfl & Hl & Heq)]];
    rewrite Heq in Hfv; simplify_eq.
  - apply (inv_free s Hinv f). rewrite Hfl. by left.
  - apply (inv_eligible s Hinv f). rewrite Hl. set_solver.
Qed.

(** What a [delete_page] that goes through does. *)
Lemma delete_page_done s id f :
  BufferPoolManager.page_table_ s !! id = Some f →
  pin_count_ (BufferPoolManager.pages_ s f) = 0%N →
  ∃ s', BufferPoolManager.delete_page s id = (true, s') ∧
    BufferPoolManager.disk_manager_ s'
    = DiskManager.write_page (BufferPoolManager.disk_manager_ s)
        (fd (id_ (BufferPoolManager.pages_ s f)))
        (page_no (id_ (BufferPoolManager.pages_ s f)))
        (data_ (BufferPoolManager.pages_ s f)) ∧
    BufferPoolManager.pages_ s' f
    = mkPage (mkPageId (fd (id_ (BufferPoolManager.pages_ s f))) INVALID_PAGE_ID)
        (replicate PAGE_SIZE x00) false 0 ∧
    (∀ g, g ≠ f → BufferPoolManager.pages_ s' g = BufferPoolManager.pages_ s g) ∧
    BufferPoolManager.page_table_ s' = delete id (BufferPoolManager.page_table_ s) ∧
    BufferPoolManager.free_list_ s' = BufferPoolManager.free_list_ s ++ [f] ∧
    BufferPoolManager.replacer_ s' = BufferPoolManager.replacer_ s.
Proof.
  intros Hpt Hz. unfold BufferPoolManager.delete_page. rewrite Hpt, Hz. simpl.
  eexists; split; [reflexivity|]. frames. split_and!; try done.
  intros g Hg. by frames.
Qed.

End manager_more.

(** Property X9.  A [fetch_page] of a resident page followed at once by
    [unpin_page] of it with [is_dirty] false leaves every frame, the page
    table, the free list and the disk as they were.  If the page was
    pinned before, the replacer is as it was too; if its pin count was 0,
    its frame is now at the front of the replacer's list and the other
    eligible frames keep their order. *)
Theorem fetch_unpin_balance (s : BufferPoolManager.t) (page_id : PageId)
    (f : frame_id_t) :
  pool_inv s →
  BufferPoolManager.page_table_ s !! page_id = Some f →
  let s1 := (BufferPoolManager.fetch_page s page_id).2 in
  let s2 := (BufferPoolManager.unpin_page s1 page_id false).2 in
  (BufferPoolManager.unpin_page s1 page_id false).1 = true ∧
  (∀ g, BufferPoolManager.pages_ s2 g = BufferPoolManager.pages_ s g) ∧
  BufferPoolManager.page_table_ s2 = BufferPoolManager.page_table_ s ∧
  BufferPoolManager.free_list_ s2 = BufferPoolManager.free_list_ s ∧
  BufferPoolManager.disk_manager_ s2 = BufferPoolManager.disk_manager_ s ∧
  (pin_count_ (BufferPoolManager.pages_ s f) ≠ 0%N →
     BufferPoolManager.replacer_ s2 = BufferPoolManager.replacer_ s) ∧
  (pin_count_ (BufferPoolManager.pages_ s f) = 0%N →
     LRUReplacer.LRUlist_ (BufferPoolManager.replacer_ s2)
     = f :: filter (λ g, g ≠ f) (LRUReplacer.LRUlist_ (BufferPoolManager.replacer_ s))).
Proof.
  intros Hinv Hpt s1 s2. subst s2 s1. rewrite (fetch_page_hit s page_id f Hpt).
  cbn [snd].
  set (s1 := BufferPoolManager.upd_page _ f _).
  assert (Hpin1 : pin_count_ (BufferPoolManager.pages_ s1 f)
                  = N.succ (pin_count_ (BufferPoolManager.pages_ s f)))
    by (subst s1; by frames).
  destruct (unpin_page_success s1 page_id false f)
    as (s2 & Hrun & Hpin & Hrep & Hd & Hid & Hdata & Hoth & Htab & Hfl & Hdisk & _);
    [done | lia |].
  rewrite Hrun. cbn [fst snd]. rewrite Htab, Hfl, Hdisk.
  assert (Hpin2 : pin_count_ (BufferPoolManager.pages_ s2 f)
                  = pin_count_ (BufferPoolManager.pages_ s f)) by lia.
  split_and!; try done.
  - intros g. destruct (decide (g = f)) as [->|Hne].
    + apply Page_eq; [rewrite Hid|rewrite Hdata|rewrite Hd|done];
        subst s1; by frames.
    + rewrite Hoth by done. subst s1. by frames.
  - intros Hnz. rewrite Hrep, decide_False by lia. subst s1. simpl.
    apply pin_absent. by apply pinned_frame_unknown.
  - intros Hz. rewrite Hrep, decide_True by lia. subst s1. simpl.
    pose proof (inv_lru s Hinv) as Hwf.
    pose proof (lru_wf_pin _ f Hwf) as [_ Hco].
    rewrite unpin_list_fresh, (pin_list _ f Hwf); [done|].
    rewrite Hco, (pin_list _ f Hwf), list_elem_of_filter. naive_solver.
Qed.

Lemma fetch_unpin_balance_witness :
  let A := mkPageId 1 0 in
  let B := mkPageId 1 1 in
  let s := run_calls (BufferPoolManager.new 2 DiskManager.empty)
             [CallFetch A; CallFetch B; CallUnpin A true; CallUnpin B false] in
  let s2 := (BufferPoolManager.unpin_page
               (BufferPoolManager.fetch_page s A).2 A false).2 in
  LRUReplacer.LRUlist_ (BufferPoolManager.replacer_ s) = [1; 0]%Z ∧
  LRUReplacer.LRUlist_ (BufferPoolManager.replacer_ s2) = [0; 1]%Z ∧
  BufferPoolManager.pages_ s2 0%Z = BufferPoolManager.pages_ s 0%Z.
Proof.
  intros A B s s2. split; [reflexivity|].
  destruct (fetch_unpin_balance s A 0%Z) as (_ & Hpages & _ & _ & _ & _ & Hfront);
    [apply pool_inv_run_calls, pool_inv_new | reflexivity |].
  split; [|apply Hpages].
  subst s2. rewrite Hfront; reflexivity.
Defined.

(** Property X10.  [delete_page] of a resident page refuses while the page
    is pinned: it returns [false] and nothing changes.  With pin count 0
    it writes the frame's buffer to disk at the frame's identity, whether
    the frame is dirty or not, removes the page-table entry, leaves the
    frame with a zeroed buffer, a clear dirty flag, pin count 0 and the
    sentinel page number (the file of the identity is kept), and appends
    the frame to the free list; no other frame changes. *)
Theorem delete_page_effects (s : BufferPoolManager.t) (page_id : PageId)
    (f : frame_id_t) :
  BufferPoolManager.page_table_ s !! page_id = Some f →
  (pin_count_ (BufferPoolManager.pages_ s f) ≠ 0%N →
     BufferPoolManager.delete_page s page_id = (false, s)) ∧
  (pin_count_ (BufferPoolManager.pages_ s f) = 0%N →
     ∃ s', BufferPoolManager.delete_page s page_id = (true, s') ∧
       DiskManager.trace (BufferPoolManager.disk_manager_ s')
       = DiskManager.EvWrite (id_ (BufferPoolManager.pages_ s f))
           (data_ (BufferPoolManager.pages_ s f))
           :: DiskManager.trace (BufferPoolManager.disk_manager_ s) ∧
       DiskManager.store (BufferPoolManager.disk_manager_ s')
         !! id_ (BufferPoolManager.pages_ s f)
       = Some (data_ (BufferPoolManager.pages_ s f)) ∧
       BufferPoolManager.pages_ s' f
       = mkPage (mkPageId (fd (id_ (BufferPoolManager.pages_ s f))) INVALID_PAGE_ID)
           (replicate PAGE_SIZE x00) false 0 ∧
       (∀ g, g ≠ f → BufferPoolManager.pages_ s' g = BufferPoolManager.pages_ s g) ∧
       BufferPoolManager.page_table_ s' = delete page_id (BufferPoolManager.page_table_ s) ∧
       BufferPoolManager.free_list_ s' = BufferPoolManager.free_list_ s ++ [f]).
Proof.
  intros Hpt. split.
  - intros Hnz. unfold BufferPoolManager.delete_page. rewrite Hpt.
    by destruct (N.eqb_spec (pin_count_ (BufferPoolManager.pages_ s f)) 0).
  - intros Hz.
    destruct (delete_page_done s page_id f Hpt Hz)
      as (s' & Hrun & Hdisk & Hfr & Hoth & Htab & Hfl & _).
    exists s'. rewrite Hdisk. simpl. rewrite PageId_eta.
    split_and!; try done. apply lookup_insert_eq.
Qed.

Lemma delete_page_effects_witness :
  let A := mkPageId 1 0 in
  let s1 := run_calls (BufferPoolManager.new 2 DiskManager.empty) [CallFetch A] in
  let s2 := run_call s1 (CallUnpin A false) in
  BufferPoolManager.delete_page s1 A = (false, s1) ∧
  ∃ s', BufferPoolManager.delete_page s2 A = (true, s') ∧
        DiskManager.store (BufferPoolManager.disk_manager_ s') !! A
        = Some (replicate PAGE_SIZE x00) ∧
        id_ (BufferPoolManager.pages_ s' 0%Z) = mkPageId 1 INVALID_PAGE_ID ∧
        BufferPoolManager.free_list_ s' = [1; 0]%Z.
Proof.
  intros A s1 s2.
  destruct (delete_page_effects s1 A 0%Z eq_refl) as [Hrefuse _].
  destruct (delete_page_effects s2 A 0%Z eq_refl) as [_ Hdone].
  split; [apply Hrefuse; vm_compute; discriminate|].
  destruct (Hdone eq_refl) as (s' & Hrun & _ & Hstore & Hfr & _ & _ & Hfl).
  exists s'. split_and!; [exact Hrun | exact Hstore | by rewrite Hfr | exact Hfl].
Defined.

(** Property X11.  A pinned frame is never repurposed.  In a state that
    satisfies the pool invariant, a frame with pin count above 0 keeps
    its identity, buffer, dirty flag and pin count through [fetch_page]
    and [unpin_page] of any page that is not mapped to it, through
    [new_page] and through [delete_page] of any page, and after each of
    these it is still neither in the free list nor eligible. *)
Theorem pinned_frame_untouched (s : BufferPoolManager.t) (f : frame_id_t) :
  pool_inv s →
  pin_count_ (BufferPoolManager.pages_ s f) ≠ 0%N →
  (∀ id, BufferPoolManager.page_table_ s !! id ≠ Some f →
     let s' := (BufferPoolManager.fetch_page s id).2 in
     BufferPoolManager.pages_ s' f = BufferPoolManager.pages_ s f ∧
     (f ∉ BufferPoolManager.free_list_ s') ∧
     (f ∉ LRUReplacer.LRUlist_ (BufferPoolManager.replacer_ s'))) ∧
  (∀ id,
     let s' := (BufferPoolManager.new_page s id).2 in
     BufferPoolManager.pages_ s' f = BufferPoolManager.pages_ s f ∧
     (f ∉ BufferPoolManager.free_list_ s') ∧
     (f ∉ LRUReplacer.LRUlist_ (BufferPoolManager.replacer_ s'))) ∧
  (∀ id,
     let s' := (BufferPoolManager.delete_page s id).2 in
     BufferPoolManager.pages_ s' f = BufferPoolManager.pages_ s f ∧
     (f ∉ BufferPoolManager.free_list_ s') ∧
     (f ∉ LRUReplacer.LRUlist_ (BufferPoolManager.replacer_ s'))) ∧
  (∀ id is_dirty, BufferPoolManager.page_table_ s !! id ≠ Some f →
     let s' := (BufferPoolManager.unpin_page s id is_dirty).2 in
     BufferPoolManager.pages_ s' f = BufferPoolManager.pages_ s f ∧
     (f ∉ BufferPoolManager.free_list_ s') ∧
     (f ∉ LRUReplacer.LRUlist_ (BufferPoolManager.replacer_ s'))).
Proof.
  intros Hinv Hpin.
  assert (Hfinish : ∀ s', pool_inv s' →
            BufferPoolManager.pages_ s' f = BufferPoolManager.pages_ s f →
            BufferPoolManager.pages_ s' f = BufferPoolManager.pages_ s f ∧
            (f ∉ BufferPoolManager.free_list_ s') ∧
            (f ∉ LRUReplacer.LRUlist_ (BufferPoolManager.replacer_ s'))).
  { intros s' Hinv' Heq. split; [done|].
    destruct (pinned_frame_unknown s' f Hinv') as (? & ? & _); [by rewrite Heq|done]. }
  split_and!.
  - intros id Hid s'. apply Hfinish; [by apply pool_inv_fetch_page|]. subst s'.
    destruct (BufferPoolManager.page_table_ s !! id) as [g|] eqn:Hpt.
    + rewrite (fetch_page_hit s id g Hpt). simpl.
      apply fn_lookup_insert_ne. congruence.
    + destruct (BufferPoolManager.find_victim_page s) as [[ok x] s1] eqn:Hfv.
      destruct ok.
      * pose proof (victim_frame_unpinned s x s1 Hinv Hfv) as Hz.
        destruct (find_victim_page_frames s true x s1 Hfv) as (Hpages & _).
        destruct (fetch_page_miss s id x s1 Hpt Hfv) as (s' & -> & _ & _ & _ & Hoth & _).
        simpl. rewrite Hoth, Hpages; [done|]. intros ->. done.
      * rewrite (fetch_page_exhausted s id x s1 Hpt Hfv). simpl.
        by rewrite (find_victim_page_exhausted s x s1 Hfv).
  - intros id s'. apply Hfinish; [by apply pool_inv_new_page|]. subst s'.
    destruct (BufferPoolManager.find_victim_page s) as [[ok x] s1] eqn:Hfv.
    destruct ok.
    + pose proof (victim_frame_unpinned s x s1 Hinv Hfv) as Hz.
      destruct (find_victim_page_frames s true x s1 Hfv) as (Hpages & _).
      destruct (new_page_success s id x s1 Hfv) as (s' & -> & _ & Hoth & _).
      simpl. rewrite Hoth, Hpages; [done|]. intros ->. done.
    + rewrite (new_page_exhausted s id x s1 Hfv). simpl.
      by rewrite (find_victim_page_exhausted s x s1 Hfv).
  - intros id s'. apply Hfinish; [by apply pool_inv_delete_page|]. subst s'.
    destruct (BufferPoolManager.page_table_ s !! id) as [g|] eqn:Hpt;
      [|by rewrite delete_page_refused by (rewrite Hpt; naive_solver)].
    destruct (decide (pin_count_ (BufferPoolManager.pages_ s g) = 0%N)) as [Hz|Hnz];
      [|by rewrite delete_page_refused by (rewrite Hpt; naive_solver)].
    destruct (delete_page_done s id g Hpt Hz) as (s' & -> & _ & _ & Hoth & _).
    simpl. apply Hoth. intros ->. done.
  - intros id is_dirty Hid s'. apply Hfinish; [by apply pool_inv_unpin_page|]. subst s'.
    destruct (BufferPoolManager.page_table_ s !! id) as [g|] eqn:Hpt;
      [|unfold BufferPoolManager.unpin_page; by rewrite Hpt].
    destruct (decide (pin_count_ (BufferPoolManager.pages_ s g) = 0%N)) as [Hz|Hnz];
      [unfold BufferPoolManager.unpin_page; by rewrite Hpt, Hz|].
    destruct (unpin_page_success s id is_dirty g Hpt Hnz)
      as (s' & -> & _ & _ & _ & _ & _ & Hoth & _).
    simpl. apply Hoth. congruence.
Qed.

(** Frame 0 holds a pinned page with a buffer the caller wrote; frame 1 is
    the only one that can be evicted. *)
Lemma pinned_frame_untouched_witness :
  let A := mkPageId 1 0 in
  let B := mkPageId 1 1 in
  let s := run_calls (BufferPoolManager.new 2 DiskManager.empty)
             [CallFetch A; CallStore 0%Z (replicate PAGE_SIZE xaa);
              CallFetch B; CallUnpin B false] in
  (BufferPoolManager.fetch_page s (mkPageId 1 2)).1 = Some 1%Z ∧
  BufferPoolManager.pages_ (BufferPoolManager.fetch_page s (mkPageId 1 2)).2 0%Z
  = mkPage A (replicate PAGE_SIZE xaa) false 1 ∧
  BufferPoolManager.pages_ (BufferPoolManager.new_page s (mkPageId 2 0)).2 0%Z
  = mkPage A (replicate PAGE_SIZE xaa) false 1.
Proof.
  intros A B s.
  destruct (pinned_frame_untouched s 0%Z) as (Hfetch & Hnew & _ & _);
    [apply pool_inv_run_calls, pool_inv_new | vm_compute; discriminate |].
  split; [reflexivity|]. split.
  - destruct (Hfetch (mkPageId 1 2)) as [-> _]; [discriminate | reflexivity].
  - destruct (Hnew (mkPageId 2 0)) as [-> _]. reflexivity.
Defined.

(** Property X12.  A [new_page] that finds a frame returns the identity
    made of the file of [*page_id] and the number [allocate_page] gave,
    whatever page number [*page_id] held.  It calls [allocate_page] once,
    before the write-back of the frame's old content, which happens only
    when the frame was dirty, and it reads nothing from disk.  The frame
    comes back with that identity, a zeroed buffer, a clear dirty flag and
    pin count 1, the page table maps the identity to it, and it is not
    eligible. *)
Theorem new_page_effects (s : BufferPoolManager.t) (page_id : PageId)
    (f : frame_id_t) (s1 : BufferPoolManager.t) :
  pool_inv s →
  BufferPoolManager.find_victim_page s = (true, f, s1) →
  let old := BufferPoolManager.pages_ s f in
  let alloc := DiskManager.allocate_page (BufferPoolManager.disk_manager_ s) (fd page_id) in
  let id' := mkPageId (fd page_id) alloc.1 in
  ∃ s', BufferPoolManager.new_page s page_id = (Some f, id', s') ∧
    BufferPoolManager.pages_ s' f = mkPage id' (replicate PAGE_SIZE x00) false 1 ∧
    BufferPoolManager.page_table_ s' !! id' = Some f ∧
    (f ∉ LRUReplacer.LRUlist_ (BufferPoolManager.replacer_ s')) ∧
    (f ∉ BufferPoolManager.free_list_ s') ∧
    DiskManager.trace (BufferPoolManager.disk_manager_ s')
    = (if is_dirty_ old then [DiskManager.EvWrite (id_ old) (data_ old)] else [])
      ++ DiskManager.EvAlloc (fd page_id) alloc.1
      :: DiskManager.trace (BufferPoolManager.disk_manager_ s).
Proof.
  intros Hinv Hfv old alloc id'.
  destruct (find_victim_page_frames s true f s1 Hfv) as (Hpages & _ & Hdisk).
  destruct (find_victim_page_inv s f s1 Hinv Hfv) as (Hinv1 & Hnf & _).
  destruct (new_page_success s page_id f s1 Hfv)
    as (s' & Hrun & Hfr & _ & Htab & Hfl & Hr & _ & Hdisk').
  rewrite Hdisk in Hrun, Hfr, Htab, Hdisk'. fold alloc in Hrun, Hfr, Htab, Hdisk'.
  fold id' in Hrun, Hfr, Htab, Hdisk'.
  exists s'. split_and!; try done.
  - rewrite Htab. apply lookup_insert_eq.
  - rewrite Hr, (pin_list _ f (inv_lru s1 Hinv1)), list_elem_of_filter. naive_solver.
  - by rewrite Hfl.
  - rewrite Hdisk', update_page_disk. simpl. rewrite Hpages. fold old.
    destruct (is_dirty_ old); simpl; [|done]. by rewrite PageId_eta.
Qed.

(** The page number passed in is overwritten: file 2 has no page yet, so
    the new page is number 0. *)
Lemma new_page_effects_witness :
  let s := run_calls (BufferPoolManager.new 2 DiskManager.empty)
             [CallFetch (mkPageId 1 0)] in
  ∃ s', BufferPoolManager.new_page s (mkPageId 2 77) = (Some 1%Z, mkPageId 2 0, s') ∧
        BufferPoolManager.pages_ s' 1%Z
        = mkPage (mkPageId 2 0) (replicate PAGE_SIZE x00) false 1 ∧
        BufferPoolManager.page_table_ s' !! mkPageId 2 0 = Some 1%Z.
Proof.
  intros s.
  destruct (new_page_effects s (mkPageId 2 77) 1%Z (BufferPoolManager.with_free_list s []))
    as (s' & Hrun & Hfr & Htab & _);
    [apply pool_inv_run_calls, pool_inv_new | reflexivity |].
  exists s'. split_and!; [exact Hrun | exact Hfr | exact Htab].
Defined.

(** ** flush_all_pages *)

Section flush_all.
Implicit Types (s : BufferPoolManager.t) (f g : Z) (l : list nat).

Lemma flush_frame_unfold file s i :
  BufferPoolManager.flush_frame file s i
  = if flushable file (BufferPoolManager.pages_ s (Z.of_nat i))
    then BufferPoolManager.upd_page
           (BufferPoolManager.with_disk s
              (DiskManager.write_page (BufferPoolManager.disk_manager_ s) file
                 (page_no (id_ (BufferPoolManager.pages_ s (Z.of_nat i))))
                 (data_ (BufferPoolManager.pages_ s (Z.of_nat i)))))
           (Z.of_nat i) (λ p, set_dirty p false)
    else s.
Proof. reflexivity. Qed.

Lemma flushable_iff file p :
  flushable file p = true ↔ fd (id_ p) = file ∧ page_no (id_ p) ≠ INVALID_PAGE_ID.
Proof.
  unfold flushable. rewrite andb_true_iff, negb_true_iff, bool_decide_eq_true.
  rewrite bool_decide_eq_false. done.
Qed.

(** No flush changes the identity, the buffer or the pin count of a
    frame. *)
Lemma flush_frames_same file l s g :
  let p' := BufferPoolManager.pages_ (foldl (BufferPoolManager.flush_frame file) s l) g in
  id_ p' = id_ (BufferPoolManager.pages_ s g) ∧
  data_ p' = data_ (BufferPoolManager.pages_ s g) ∧
  pin_count_ p' = pin_count_ (BufferPoolManager.pages_ s g).
Proof.
  induction l as [|i l IH] using rev_ind; [done|].
  rewrite foldl_snoc, flush_frame_unfold. simpl in *.
  destruct (flushable file (BufferPoolManager.pages_
               (foldl (BufferPoolManager.flush_frame file) s l) (Z.of_nat i)));
    [|done].
  destruct (decide (g = Z.of_nat i)) as [->|Hne]; by frames.
Qed.

Lemma flush_frames_flushable file l s g :
  flushable file (BufferPoolManager.pages_ (foldl (BufferPoolManager.flush_frame file) s l) g)
  = flushable file (BufferPoolManager.pages_ s g).
Proof.
  unfold flushable. by destruct (flush_frames_same file l s g) as (-> & _).
Qed.

Lemma flush_frames_hit file l s g :
  (0 ≤ g)%Z → Z.to_nat g ∈ l →
  flushable file (BufferPoolManager.pages_ s g) = true →
  BufferPoolManager.pages_ (foldl (BufferPoolManager.flush_frame file) s l) g
  = set_dirty (BufferPoolManager.pages_ s g) false.
Proof.
  intros Hg.
  induction l as [|i l IH] using rev_ind; [by intros ?%elem_of_nil|].
  intros Hin Hfl. rewrite foldl_snoc, flush_frame_unfold.
  destruct (decide (g = Z.of_nat i)) as [->|Hne].
  - rewrite flush_frames_flushable, Hfl. frames.
    destruct (flush_frames_same file l s (Z.of_nat i)) as (Hid & Hdata & Hpin).
    simpl in *. unfold set_dirty. by rewrite Hid, Hdata, Hpin.
  - assert (Hin' : Z.to_nat g ∈ l).
    { apply elem_of_app in Hin as [?|Hin]; [done|].
      apply list_elem_of_singleton in Hin. lia. }
    destruct (flushable file (BufferPoolManager.pages_
               (foldl (BufferPoolManager.flush_frame file) s l) (Z.of_nat i)));
      frames; by apply IH.
Qed.

Lemma flush_frames_miss file l s g :
  ¬ ((0 ≤ g)%Z ∧ Z.to_nat g ∈ l ∧ flushable file (BufferPoolManager.pages_ s g) = true) →
  BufferPoolManager.pages_ (foldl (BufferPoolManager.flush_frame file) s l) g
  = BufferPoolManager.pages_ s g.
Proof.
  induction l as [|i l IH] using rev_ind; [done|].
  intros Hno. rewrite foldl_snoc, flush_frame_unfold.
  assert (IH' : BufferPoolManager.pages_
                  (foldl (BufferPoolManager.flush_frame file) s l) g
                = BufferPoolManager.pages_ s g).
  { apply IH. intros (? & ? & ?). apply Hno. set_solver. }
  destruct (flushable file (BufferPoolManager.pages_
               (foldl (BufferPoolManager.flush_frame file) s l) (Z.of_nat i)))
    eqn:Hfl; [|done].
  destruct (decide (g = Z.of_nat i)) as [->|Hne]; [|by frames].
  rewrite flush_frames_flushable in Hfl. destruct Hno.
  split_and!; [lia| |done]. rewrite Nat2Z.id. set_solver.
Qed.

Lemma flush_frames_disk file l s :
  let d' := BufferPoolManager.disk_manager_
              (foldl (BufferPoolManager.flush_frame file) s l) in
  DiskManager.fd2pageno_ d' = DiskManager.fd2pageno_ (BufferPoolManager.disk_manager_ s) ∧
  ∀ key, fd key ≠ file →
         DiskManager.store d' !! key
         = DiskManager.store (BufferPoolManager.disk_manager_ s) !! key.
Proof.
  induction l as [|i l IH] using rev_ind; [done|].
  rewrite foldl_snoc, flush_frame_unfold. simpl in *.
  destruct (flushable file (BufferPoolManager.pages_
               (foldl (BufferPoolManager.flush_frame file) s l) (Z.of_nat i)));
    [|done]. destruct IH as [IH1 IH2]. simpl.
  split; [done|]. intros key Hkey.
  rewrite lookup_insert_ne; [by apply IH2|]. intros <-. done.
Qed.

(** The buffer of a flushed frame is what the disk holds at its identity,
    provided no other frame that the loop visits carries that identity. *)
Lemma flush_frames_persisted file l s g :
  (0 ≤ g)%Z → Z.to_nat g ∈ l →
  flushable file (BufferPoolManager.pages_ s g) = true →
  (∀ i, i ∈ l →
        id_ (BufferPoolManager.pages_ s (Z.of_nat i)) = id_ (BufferPoolManager.pages_ s g) →
        Z.of_nat i = g) →
  DiskManager.store
    (BufferPoolManager.disk_manager_ (foldl (BufferPoolManager.flush_frame file) s l))
    !! id_ (BufferPoolManager.pages_ s g)
  = Some (data_ (BufferPoolManager.pages_ s g)).
Proof.
  intros Hg.
  induction l as [|i l IH] using rev_ind; [by intros ?%elem_of_nil|].
  intros Hin Hfl Huniq. rewrite foldl_snoc, flush_frame_unfold.
  destruct (flush_frames_same file l s (Z.of_nat i)) as (Hid & Hdata & _).
  simpl in Hid, Hdata.
  destruct (decide (g = Z.of_nat i)) as [->|Hne].
  - rewrite flush_frames_flushable, Hfl. simpl. rewrite Hid, Hdata.
    apply flushable_iff in Hfl as [<- _]. rewrite PageId_eta.
    apply lookup_insert_eq.
  - assert (Hin' : Z.to_nat g ∈ l).
    { apply elem_of_app in Hin as [?|Hin]; [done|].
      apply list_elem_of_singleton in Hin. lia. }
    assert (IH' := IH Hin' Hfl (λ j Hj, Huniq j (proj2 (elem_of_app _ _ _) (or_introl Hj)))).
    destruct (flushable file (BufferPoolManager.pages_
               (foldl (BufferPoolManager.flush_frame file) s l) (Z.of_nat i)))
      eqn:Hfi; [|done]. simpl.
    rewrite flush_frames_flushable in Hfi. apply flushable_iff in Hfi as [Hfd _].
    rewrite lookup_insert_ne; [done|].
    rewrite Hid. rewrite <- Hfd, PageId_eta. intros Heq.
    apply Hne. symmetry. apply Huniq; [set_solver|done].
Qed.

End flush_all.

(** Property X13.  [flush_all_pages] clears the dirty flag of every frame
    of the pool whose identity is in the given file and is not the
    sentinel, and changes nothing else in any frame; a frame that is out
    of range, belongs to another file or carries the sentinel is left as
    it is.  For a flushed frame whose identity no other frame of the pool
    carries, the disk then holds the frame's buffer at that identity.  The
    page table, the free list, the replacer, the page counters and the
    slots of other files are as before. *)
Theorem flush_all_pages_spec (s : BufferPoolManager.t) (file : Z) :
  let s' := BufferPoolManager.flush_all_pages s file in
  (∀ g, frame_in_range s g →
        fd (id_ (BufferPoolManager.pages_ s g)) = file →
        page_no (id_ (BufferPoolManager.pages_ s g)) ≠ INVALID_PAGE_ID →
        BufferPoolManager.pages_ s' g = set_dirty (BufferPoolManager.pages_ s g) false ∧
        ((∀ h, frame_in_range s h →
               id_ (BufferPoolManager.pages_ s h) = id_ (BufferPoolManager.pages_ s g) →
               h = g) →
         DiskManager.store (BufferPoolManager.disk_manager_ s')
           !! id_ (BufferPoolManager.pages_ s g)
         = Some (data_ (BufferPoolManager.pages_ s g)))) ∧
  (∀ g, ¬ (frame_in_range s g ∧
           fd (id_ (BufferPoolManager.pages_ s g)) = file ∧
           page_no (id_ (BufferPoolManager.pages_ s g)) ≠ INVALID_PAGE_ID) →
        BufferPoolManager.pages_ s' g = BufferPoolManager.pages_ s g) ∧
  BufferPoolManager.page_table_ s' = BufferPoolManager.page_table_ s ∧
  BufferPoolManager.free_list_ s' = BufferPoolManager.free_list_ s ∧
  BufferPoolManager.replacer_ s' = BufferPoolManager.replacer_ s ∧
  DiskManager.fd2pageno_ (BufferPoolManager.disk_manager_ s')
  = DiskManager.fd2pageno_ (BufferPoolManager.disk_manager_ s) ∧
  (∀ key, fd key ≠ file →
          DiskManager.store (BufferPoolManager.disk_manager_ s') !! key
          = DiskManager.store (BufferPoolManager.disk_manager_ s) !! key).
Proof.
  intros s'. subst s'. unfold BufferPoolManager.flush_all_pages.
  set (l := seq 0 (BufferPoolManager.pool_size_ s)).
  assert (Hl : ∀ g, frame_in_range s g ↔ (0 ≤ g)%Z ∧ Z.to_nat g ∈ l).
  { intros g. subst l. rewrite elem_of_seq. unfold frame_in_range. lia. }
  destruct (flush_frames_meta file l s) as (Htab & Hfl & Hr & _).
  destruct (flush_frames_disk file l s) as (Hno & Hstore).
  split_and!; try done.
  - intros g Hrange Hfd Hno'. apply Hl in Hrange as [Hg Hin].
    assert (Hf : flushable file (BufferPoolManager.pages_ s g) = true)
      by (by apply flushable_iff).
    split; [by apply flush_frames_hit|].
    intros Huniq. apply flush_frames_persisted; try done.
    intros i Hi Hid. apply Huniq; [|done]. apply Hl. rewrite Nat2Z.id. split; [lia|done].
  - intros g Hno'. apply flush_frames_miss. intros (Hg & Hin & Hf).
    apply Hno'. apply flushable_iff in Hf. split; [|done]. apply Hl. done.
Qed.

(** Two dirty pages of file 1 and one of file 2: flushing file 1 cleans
    and persists the two and leaves the third dirty. *)
Lemma flush_all_pages_spec_witness :
  let A := mkPageId 1 0 in
  let B := mkPageId 1 1 in
  let C := mkPageId 2 0 in
  let s := run_calls (BufferPoolManager.new 3 DiskManager.empty)
             [CallFetch A; CallFetch B; CallFetch C;
              CallStore 1%Z (replicate PAGE_SIZE xaa);
              CallUnpin A true; CallUnpin B true; CallUnpin C true] in
  let s' := BufferPoolManager.flush_all_pages s 1 in
  is_dirty_ (BufferPoolManager.pages_ s 1%Z) = true ∧
  BufferPoolManager.pages_ s' 1%Z = mkPage B (replicate PAGE_SIZE xaa) false 0 ∧
  DiskManager.store (BufferPoolManager.disk_manager_ s') !! B
  = Some (replicate PAGE_SIZE xaa) ∧
  is_dirty_ (BufferPoolManager.pages_ s' 2%Z) = true.
Proof.
  intros A B C s s'. split; [reflexivity|].
  destruct (flush_all_pages_spec s 1) as (Hflushed & Hkept & _).
  destruct (Hflushed 1%Z) as [Hpage Hdisk];
    [by vm_compute | reflexivity | discriminate |].
  split_and!.
  - subst s'. rewrite Hpage. reflexivity.
  - apply Hdisk. intros h [Hlo Hhi] Hid.
    change (Z.of_nat (BufferPoolManager.pool_size_ s)) with 3%Z in Hhi.
    assert (Hcases : (h = 0 ∨ h = 1 ∨ h = 2)%Z) by lia.
    destruct Hcases as [Hh|[Hh|Hh]]; subst h;
      [discriminate Hid | done | discriminate Hid].
  - subst s'. rewrite Hkept; [reflexivity|]. intros (_ & Hfd & _). discriminate Hfd.
Defined.

(** ** A page survives its eviction *)

Section round_trip.
Implicit Types (s : BufferPoolManager.t) (f g : Z) (id : PageId).

(** On a miss the buffer of the frame is what [read_page] returned after
    the write-back of [update_page]. *)
Lemma fetch_page_miss_buffer s id f s1 :
  BufferPoolManager.page_table_ s !! id = None →
  BufferPoolManager.find_victim_page s = (true, f, s1) →
  data_ (BufferPoolManager.pages_ (BufferPoolManager.fetch_page s id).2 f)
  = default (replicate PAGE_SIZE x00)
      (DiskManager.store
         (BufferPoolManager.disk_manager_ (BufferPoolManager.update_page s1 f id f))
         !! id).
Proof.
  intros Hmiss Hfv. unfold BufferPoolManager.fetch_page. rewrite Hmiss, Hfv.
  generalize (BufferPoolManager.update_page s1 f id f). intros s2.
  frames. by rewrite PageId_eta.
Qed.

(** With an empty free list and a single eligible frame, that frame is
    the victim. *)
Lemma single_victim s f :
  BufferPoolManager.free_list_ s = [] →
  LRUReplacer.LRUlist_ (BufferPoolManager.replacer_ s) = [f] →
  BufferPoolManager.find_victim_page s
  = (true, f,
     BufferPoolManager.with_replacer s
       (LRUReplacer.mk (LRUReplacer.max_size_ (BufferPoolManager.replacer_ s)) []
          (LRUReplacer.LRUhash_ (BufferPoolManager.replacer_ s) ∖ {[f]}))).
Proof.
  intros Hfl Hl.
  destruct (find_victim_page_cases s)
    as [(? & ? & Hfl' & _)|[(_ & Hl' & _)|(l & x & _ & Hl' & Hfv)]].
  - by rewrite Hfl in Hfl'.
  - by rewrite Hl in Hl'.
  - rewrite Hl in Hl'. change [f] with ([] ++ [f]) in Hl'.
    by apply app_inj_tail in Hl' as [<- <-].
Qed.

Lemma evict_refetch s A B f :
  pool_inv s →
  BufferPoolManager.free_list_ s = [] →
  LRUReplacer.LRUlist_ (BufferPoolManager.replacer_ s) = [f] →
  BufferPoolManager.page_table_ s !! A = Some f →
  BufferPoolManager.page_table_ s !! B = None →
  (is_dirty_ (BufferPoolManager.pages_ s f) = true ∨
   DiskManager.store (BufferPoolManager.disk_manager_ s) !! A
   = Some (data_ (BufferPoolManager.pages_ s f))) →
  let s1 := (BufferPoolManager.fetch_page s B).2 in
  let s2 := (BufferPoolManager.unpin_page s1 B false).2 in
  (BufferPoolManager.fetch_page s B).1 = Some f ∧
  BufferPoolManager.page_table_ s2 !! A = None ∧
  ∃ s3, BufferPoolManager.fetch_page s2 A = (Some f, s3) ∧
    BufferPoolManager.pages_ s3 f
    = mkPage A (data_ (BufferPoolManager.pages_ s f)) false 1.
Proof.
  intros Hinv Hfl Hl HA HB Hsaved s1 s2.
  destruct (inv_table s Hinv A f HA) as (HidA & _).
  assert (HAB : A ≠ B) by congruence.
  (* the fetch of B evicts A *)
  pose proof (single_victim s f Hfl Hl) as Hfv1.
  destruct (fetch_page_miss s B f _ HB Hfv1)
    as (s1' & Hrun1 & Hid1 & Hd1 & Hpin1 & _ & Hpt1 & Hfl1 & Hr1 & _ & Hstore1).
  simpl in Hpt1, Hfl1, Hr1. rewrite HidA in Hpt1.
  pose proof (pool_inv_fetch_page s B Hinv) as Hinv1.
  subst s2 s1. rewrite Hrun1 in *. cbn [fst snd] in *.
  assert (Hsaved1 : DiskManager.store (BufferPoolManager.disk_manager_ s1') !! A
                    = Some (data_ (BufferPoolManager.pages_ s f))).
  { rewrite Hstore1, update_page_disk. simpl.
    destruct (is_dirty_ (BufferPoolManager.pages_ s f)) eqn:Hd.
    - simpl. rewrite PageId_eta, HidA. apply lookup_insert_eq.
    - by destruct Hsaved. }
  assert (Hl1 : LRUReplacer.LRUlist_ (BufferPoolManager.replacer_ s1') = []).
  { rewrite Hr1, pin_list; [done|].
    apply (lru_wf_snoc _ [] f (inv_lru s Hinv)). by rewrite Hl. }
  (* B is released *)
  assert (HB1 : BufferPoolManager.page_table_ s1' !! B = Some f)
    by (rewrite Hpt1; apply lookup_insert_eq).
  destruct (unpin_page_last_pin s1' B false f Hinv1 HB1 Hpin1)
    as (s2 & Hrun2 & Hinv2 & Hl2 & Hpt2 & Hfl2 & _).
  destruct (unpin_page_success s1' B false f HB1)
    as (s2' & Hrun2' & _ & _ & Hd2 & _ & _ & _ & _ & _ & Hdisk2 & _); [lia|].
  rewrite Hrun2 in Hrun2'. injection Hrun2' as <-.
  rewrite Hrun2. cbn [snd].
  assert (HA2 : BufferPoolManager.page_table_ s2 !! A = None).
  { rewrite Hpt2, Hpt1, lookup_insert_ne by done. apply lookup_delete_eq. }
  split; [done|]. split; [done|].
  (* the fetch of A evicts B and reads A back *)
  assert (Hfv3 := single_victim s2 f (eq_trans Hfl2 (eq_trans Hfl1 Hfl))
                    (eq_trans Hl2 (f_equal (cons f) Hl1))).
  pose proof (fetch_page_miss_buffer s2 A f _ HA2 Hfv3) as Hbuf.
  destruct (fetch_page_miss s2 A f _ HA2 Hfv3)
    as (s3 & Hrun3 & Hid3 & Hd3 & Hpin3 & _).
  rewrite Hrun3 in Hbuf. cbn [snd] in Hbuf.
  rewrite update_page_disk in Hbuf. simpl in Hbuf.
  rewrite Hd2, Hd1, Hdisk2, Hsaved1 in Hbuf. simpl in Hbuf.
  exists s3. split; [done|]. by apply Page_eq.
Qed.

End round_trip.

(** Property X14.  A page survives its eviction.  In a state that
    satisfies the pool invariant, with an empty free list and A's frame
    the only eligible one, where A is dirty or the disk already holds its
    buffer: [fetch_page] of a page B that is not resident takes A's frame
    and A leaves the page table; once B is unpinned, [fetch_page] of A
    takes the frame back and the frame then holds A's identity, the buffer
    A had before it was evicted, a clear dirty flag and pin count 1. *)
Theorem evict_refetch_round_trip (s : BufferPoolManager.t) (A B : PageId)
    (f : frame_id_t) :
  pool_inv s →
  BufferPoolManager.free_list_ s = [] →
  LRUReplacer.LRUlist_ (BufferPoolManager.replacer_ s) = [f] →
  BufferPoolManager.page_table_ s !! A = Some f →
  BufferPoolManager.page_table_ s !! B = None →
  (is_dirty_ (BufferPoolManager.pages_ s f) = true ∨
   DiskManager.store (BufferPoolManager.disk_manager_ s) !! A
   = Some (data_ (BufferPoolManager.pages_ s f))) →
  let s1 := (BufferPoolManager.fetch_page s B).2 in
  let s2 := (BufferPoolManager.unpin_page s1 B false).2 in
  (BufferPoolManager.fetch_page s B).1 = Some f ∧
  BufferPoolManager.page_table_ s2 !! A = None ∧
  ∃ s3, BufferPoolManager.fetch_page s2 A = (Some f, s3) ∧
    BufferPoolManager.pages_ s3 f
    = mkPage A (data_ (BufferPoolManager.pages_ s f)) false 1.
Proof. apply evict_refetch. Qed.

(** One frame: A is fetched, overwritten and unpinned dirty; B takes the
    frame; A comes back with the overwritten buffer. *)
Lemma evict_refetch_round_trip_witness :
  let A := mkPageId 1 0 in
  let B := mkPageId 1 1 in
  let s := run_calls (BufferPoolManager.new 1 DiskManager.empty)
             [CallFetch A; CallStore 0%Z (replicate PAGE_SIZE xaa); CallUnpin A true] in
  let s2 := (BufferPoolManager.unpin_page (BufferPoolManager.fetch_page s B).2 B false).2 in
  ∃ s3, BufferPoolManager.fetch_page s2 A = (Some 0%Z, s3) ∧
        BufferPoolManager.pages_ s3 0%Z = mkPage A (replicate PAGE_SIZE xaa) false 1.
Proof.
  intros A B s s2.
  destruct (evict_refetch_round_trip s A B 0%Z) as (_ & _ & Hback);
    [apply pool_inv_run_calls, pool_inv_new | reflexivity .. | by left | ].
  exact Hback.
Defined.

(** ** The miss path, call by call *)

Section miss_effects.
Implicit Types (s : BufferPoolManager.t) (f g : Z) (id : PageId).

Lemma fetch_page_miss_disk s id f s1 :
  BufferPoolManager.page_table_ s !! id = None →
  BufferPoolManager.find_victim_page s = (true, f, s1) →
  BufferPoolManager.disk_manager_ (BufferPoolManager.fetch_page s id).2
  = (DiskManager.read_page
       (BufferPoolManager.disk_manager_ (BufferPoolManager.update_page s1 f id f))
       (fd id) (page_no id)).2.
Proof.
  intros Hmiss Hfv. unfold BufferPoolManager.fetch_page. rewrite Hmiss, Hfv.
  generalize (BufferPoolManager.update_page s1 f id f). intros s2. by frames.
Qed.

(** A map that sends different keys to different values of a set has at
    most as many entries as the set has elements. *)
Lemma inj_map_size (m : gmap PageId Z) : ∀ X : gset Z,
  (∀ i x, m !! i = Some x → x ∈ X) →
  (∀ i j x, m !! i = Some x → m !! j = Some x → i = j) →
  (size m ≤ size X)%nat.
Proof.
  induction m as [|i x m Hi IH] using map_ind; intros X Hin Hinj.
  - rewrite map_size_empty. lia.
  - rewrite map_size_insert_None by done.
    assert (Hx : x ∈ X) by (apply (Hin i); apply lookup_insert_eq).
    assert (Hle : (size m ≤ size (X ∖ {[x]}))%nat).
    { apply IH.
      - intros j y Hj. assert (j ≠ i) by congruence.
        apply elem_of_difference. split.
        + apply (Hin j). by rewrite lookup_insert_ne.
        + rewrite elem_of_singleton. intros ->.
          assert (j = i); [|done].
          apply (Hinj j i x); [by rewrite lookup_insert_ne | apply lookup_insert_eq].
      - intros j k y Hj Hk. assert (j ≠ i) by congruence. assert (k ≠ i) by congruence.
        apply (Hinj j k y); by rewrite lookup_insert_ne. }
    rewrite size_difference, size_singleton in Hle by set_solver.
    assert (size X ≠ 0)%nat; [|lia].
    intros Hz. apply size_empty_inv in Hz. set_solver.
Qed.

End miss_effects.

(** Property X15.  A [fetch_page] of a page that is not resident, when
    [find_victim_page] finds a frame: the frame's old content is written
    back first if and only if the frame was dirty, then the page is read,
    and these are the only disk calls.  The frame comes back with the
    requested identity, the buffer that the disk held for it after the
    write-back, a clear dirty flag and pin count 1; the page table has
    traded the frame's old identity for the new one and the frame is not
    eligible. *)
Theorem fetch_page_miss_effects (s : BufferPoolManager.t) (page_id : PageId)
    (f : frame_id_t) (s1 : BufferPoolManager.t) :
  pool_inv s →
  BufferPoolManager.page_table_ s !! page_id = None →
  BufferPoolManager.find_victim_page s = (true, f, s1) →
  let old := BufferPoolManager.pages_ s f in
  let d := if is_dirty_ old
           then DiskManager.write_page (BufferPoolManager.disk_manager_ s)
                  (fd (id_ old)) (page_no (id_ old)) (data_ old)
           else BufferPoolManager.disk_manager_ s in
  ∃ s', BufferPoolManager.fetch_page s page_id = (Some f, s') ∧
    BufferPoolManager.pages_ s' f
    = mkPage page_id (default (replicate PAGE_SIZE x00) (DiskManager.store d !! page_id))
        false 1 ∧
    BufferPoolManager.page_table_ s'
    = <[page_id := f]> (delete (id_ old) (BufferPoolManager.page_table_ s)) ∧
    (f ∉ LRUReplacer.LRUlist_ (BufferPoolManager.replacer_ s')) ∧
    (f ∉ BufferPoolManager.free_list_ s') ∧
    DiskManager.trace (BufferPoolManager.disk_manager_ s')
    = DiskManager.EvRead page_id :: DiskManager.trace d ∧
    DiskManager.store (BufferPoolManager.disk_manager_ s') = DiskManager.store d.
Proof.
  intros Hinv Hpt Hfv old d.
  destruct (find_victim_page_frames s true f s1 Hfv) as (Hpages & Htab1 & Hdisk).
  destruct (find_victim_page_inv s f s1 Hinv Hfv) as (Hinv1 & Hnf & _).
  pose proof (fetch_page_miss_buffer s page_id f s1 Hpt Hfv) as Hbuf.
  pose proof (fetch_page_miss_disk s page_id f s1 Hpt Hfv) as Hd.
  destruct (fetch_page_miss s page_id f s1 Hpt Hfv)
    as (s' & Hrun & Hid & Hclean & Hpin & _ & Htab & Hfl & Hr & _).
  rewrite Hrun in Hbuf, Hd. cbn [snd] in Hbuf, Hd.
  rewrite update_page_disk, Hpages, Hdisk in Hbuf, Hd. fold old in Hbuf, Hd.
  fold d in Hbuf, Hd.
  exists s'. split_and!; try done.
  - by apply Page_eq.
  - by rewrite Htab, Hpages, Htab1.
  - rewrite Hr, (pin_list _ f (inv_lru s1 Hinv1)), list_elem_of_filter. naive_solver.
  - by rewrite Hfl.
  - rewrite Hd. simpl. by rewrite PageId_eta.
  - by rewrite Hd.
Qed.

(** Page B was overwritten with a pattern, unpinned dirty and deleted,
    which wrote it to disk; a fetch brings the pattern back into the free
    frame. *)
Lemma fetch_page_miss_effects_witness :
  let B := mkPageId 1 1 in
  let s := run_calls (BufferPoolManager.new 1 DiskManager.empty)
             [CallFetch B; CallStore 0%Z (replicate PAGE_SIZE xaa);
              CallUnpin B true; CallDelete B] in
  ∃ s', BufferPoolManager.fetch_page s B = (Some 0%Z, s') ∧
        BufferPoolManager.pages_ s' 0%Z = mkPage B (replicate PAGE_SIZE xaa) false 1 ∧
        BufferPoolManager.page_table_ s' !! B = Some 0%Z.
Proof.
  intros B s.
  destruct (fetch_page_miss_effects s B 0%Z (BufferPoolManager.with_free_list s []))
    as (s' & Hrun & Hfr & Htab & _);
    [apply pool_inv_run_calls, pool_inv_new | reflexivity | reflexivity |].
  exists s'. split_and!; [exact Hrun | exact Hfr |].
  rewrite Htab. apply lookup_insert_eq.
Defined.

(** Property X16.  The pool never holds more pages than it has frames: in
    a state that satisfies the pool invariant different resident pages
    sit in different frames, and the page table has at most [pool_size_]
    entries. *)
Theorem resident_pages_bounded (s : BufferPoolManager.t) :
  pool_inv s →
  (∀ id1 id2 f, BufferPoolManager.page_table_ s !! id1 = Some f →
                BufferPoolManager.page_table_ s !! id2 = Some f → id1 = id2) ∧
  (size (BufferPoolManager.page_table_ s) ≤ BufferPoolManager.pool_size_ s)%nat.
Proof.
  intros Hinv.
  assert (Hinj : ∀ id1 id2 f, BufferPoolManager.page_table_ s !! id1 = Some f →
                   BufferPoolManager.page_table_ s !! id2 = Some f → id1 = id2).
  { intros id1 id2 f H1 H2.
    destruct (inv_table s Hinv id1 f H1) as [<- _].
    by destruct (inv_table s Hinv id2 f H2) as [<- _]. }
  split; [done|].
  set (X := list_to_set (Z.of_nat <$> seq 0 (BufferPoolManager.pool_size_ s)) : gset Z).
  assert (HX : size X = BufferPoolManager.pool_size_ s).
  { subst X. rewrite size_list_to_set.
    - by rewrite length_fmap, length_seq.
    - apply NoDup_fmap_2; [apply _ | apply NoDup_seq]. }
  rewrite <- HX. apply inj_map_size; [|done].
  intros id f Hf. destruct (inv_table s Hinv id f Hf) as (_ & _ & Hrange).
  subst X. rewrite elem_of_list_to_set, list_elem_of_fmap.
  exists (Z.to_nat f). unfold frame_in_range in Hrange.
  split; [lia|]. apply elem_of_seq. lia.
Qed.

Lemma resident_pages_bounded_witness :
  let s := run_calls (BufferPoolManager.new 2 DiskManager.empty)
             [CallFetch (mkPageId 1 0); CallUnpin (mkPageId 1 0) false;
              CallFetch (mkPageId 1 1); CallUnpin (mkPageId 1 1) false;
              CallFetch (mkPageId 1 2); CallFetch (mkPageId 1 3)] in
  (size (BufferPoolManager.page_table_ s) ≤ 2)%nat.
Proof.
  intros s.
  destruct (resident_pages_bounded s) as [_ Hle];
    [apply pool_inv_run_calls, pool_inv_new|].
  exact Hle.
Defined.
